(** * Verification of the Faucet/Mininet demonstration script

    The script [mininet_faucet_demo.py] has two parts:
    - the class [FaucetTopo], whose constructor declares a fixed graph of
      nodes and links through the emulator's [Topo] interface;
    - the function [run], which instantiates the network, provisions it by
      sending shell commands and polling their output, opens the interactive
      shell and tears the network down.

    The emulator (Mininet) and the operating system are outside the script.
    The topology part is modelled by explicit state passing over the graph a
    [Topo] object holds; the provisioning part by a small monad that records
    every call the script makes, and obtains the text returned by a command
    from an arbitrary environment. *)

From Stdlib Require Import String Ascii List Bool Arith Lia DecimalString.
Import ListNotations.
Local Open Scope string_scope.
Local Open Scope list_scope.

(** ** Strings: the Python operator [in] on [str] *)

(** [contains needle hay] is Python's [needle in hay] for two strings:
    [needle] occurs as a contiguous substring of [hay]. *)
Fixpoint contains (needle hay : string) : bool :=
  String.prefix needle hay ||
  match hay with
  | EmptyString => false
  | String _ rest => contains needle rest
  end.

(** ['%i' % n] for a non-negative integer. *)
Definition str_of_nat (n : nat) : string :=
  NilEmpty.string_of_uint (Nat.to_uint n).

(** ** The topology graph *)

Module Topo.

(** Values passed as keyword arguments. *)
Inductive PyVal : Type :=
| VStr (s : string)
| VBool (b : bool).

(** A keyword-argument dictionary, in the order written at the call. *)
Definition kwargs : Type := list (string * PyVal).

Fixpoint lookup (k : string) (d : kwargs) : option PyVal :=
  match d with
  | [] => None
  | (k', v) :: d' => if String.eqb k k' then Some v else lookup k d'
  end.

(** The method of [Topo] through which a node was declared. The emulator
    forwards all three to [addNode]; the declaration is kept here because
    the script distinguishes switches, plain nodes and hosts by it. *)
Inductive Decl : Type := AddSwitch | AddNode | AddHost.

Definition Decl_eqb (a b : Decl) : bool :=
  match a, b with
  | AddSwitch, AddSwitch | AddNode, AddNode | AddHost, AddHost => true
  | _, _ => false
  end.

Record Node : Type := mkNode
  { name : string;
    decl : Decl;
    opts : kwargs }.

Record Link : Type := mkLink
  { node1 : string;
    node2 : string;
    lopts : kwargs }.

(** The graph held by a [Topo] object: nodes and links in insertion
    order. *)
Record t : Type := mkTopo
  { nodes : list Node;
    links : list Link }.

(** [Topo.__init__(self)] *)
Definition empty : t := {| nodes := []; links := [] |}.

(** Adding a node under a name already present replaces its attributes
    and keeps its position, as a dictionary assignment does. *)
Fixpoint put_node (n : Node) (l : list Node) : list Node :=
  match l with
  | [] => [n]
  | m :: l' => if String.eqb (name m) (name n) then n :: l'
               else m :: put_node n l'
  end.

(** State passing over the graph: a method returns its result and the
    updated object. *)
Definition M (A : Type) : Type := t -> A * t.

Definition ret {A} (a : A) : M A := fun g => (a, g).
Definition bind {A B} (m : M A) (f : A -> M B) : M B :=
  fun g => let (a, g') := m g in f a g'.

(** [addNode(name, **opts)] returns the node's name. *)
Definition declare (d : Decl) (nm : string) (o : kwargs) : M string :=
  fun g => (nm, {| nodes := put_node (mkNode nm d o) (nodes g);
                   links := links g |}).

Definition addNode (nm : string) (o : kwargs) : M string :=
  declare AddNode nm o.

(** [addHost(name, **opts)] *)
Definition addHost (nm : string) (o : kwargs) : M string :=
  declare AddHost nm o.

(** [addSwitch(name, **opts)] is [addNode(name, isSwitch=True, **opts)]. *)
Definition addSwitch (nm : string) (o : kwargs) : M string :=
  declare AddSwitch nm (("isSwitch", VBool true) :: o).

(** [addLink(node1, node2, **opts)] *)
Definition addLink (n1 n2 : string) (o : kwargs) : M unit :=
  fun g => (tt, {| nodes := nodes g;
                   links := links g ++ [mkLink n1 n2 o] |}).

(** Accessors used by the properties. *)
Definition isSwitch (n : Node) : bool :=
  match lookup "isSwitch" (opts n) with
  | Some (VBool b) => b
  | _ => false
  end.

Definition str_opt (k : string) (o : kwargs) : option string :=
  match lookup k o with
  | Some (VStr s) => Some s
  | _ => None
  end.

Definition flag (k : string) (o : kwargs) : bool :=
  match lookup k o with
  | Some (VBool b) => b
  | _ => false
  end.

Definition intfName1 (l : Link) : option string := str_opt "intfName1" (lopts l).
Definition intfName2 (l : Link) : option string := str_opt "intfName2" (lopts l).

Definition declared_by (d : Decl) (g : t) : list string :=
  map name (filter (fun n => Decl_eqb (decl n) d) (nodes g)).

(** [Topo.switches()] and [Topo.hosts()] (insertion order). *)
Definition switches (g : t) : list string :=
  map name (filter isSwitch (nodes g)).
Definition hosts (g : t) : list string :=
  map name (filter (fun n => negb (isSwitch n)) (nodes g)).

End Topo.

Declare Scope topo_scope.
Delimit Scope topo_scope with topo.
Notation "x <- m ;; k" := (Topo.bind m (fun x => k))
  (at level 61, m at next level, right associativity) : topo_scope.

(** ** The declared topology: [FaucetTopo.__init__] *)

(** The local variables of the constructor, each holding the name returned
    by the declaring call. *)
Record Locals : Type := mkLocals
  { phy_sw : string; nfv_sw : string;
    faucet : string;
    dhcp_nfv : string; nat_nfv : string; ids_nfv : string;
    h1 : string; h2 : string }.

Definition intf_names (a b : string) : Topo.kwargs :=
  [("intfName1", Topo.VStr a); ("intfName2", Topo.VStr b)].

Definition FaucetTopo_init : Topo.M Locals :=
  (phy_sw <- Topo.addSwitch "sw1"
     [("protocols", Topo.VStr "OpenFlow13"); ("dpid", Topo.VStr "1")] ;;
   nfv_sw <- Topo.addSwitch "sw2"
     [("protocols", Topo.VStr "OpenFlow13"); ("dpid", Topo.VStr "2")] ;;
   faucet <- Topo.addNode "faucet" [("ip", Topo.VStr "0.0.0.0")] ;;
   dhcp_nfv <- Topo.addNode "dhcp"
     [("ip", Topo.VStr "10.0.0.254"); ("inNamespace", Topo.VBool true)] ;;
   nat_nfv <- Topo.addNode "nat"
     [("ip", Topo.VStr "10.0.0.1"); ("inNamespace", Topo.VBool true)] ;;
   ids_nfv <- Topo.addNode "ids"
     [("ip", Topo.VStr "0.0.0.0"); ("inNamespace", Topo.VBool true)] ;;
   h1 <- Topo.addHost "h1" [("ip", Topo.VStr "0.0.0.0")] ;;
   h2 <- Topo.addHost "h2" [("ip", Topo.VStr "0.0.0.0")] ;;
   _ <- Topo.addLink phy_sw h1 (intf_names "port-1" "eth0") ;;
   _ <- Topo.addLink phy_sw h2 (intf_names "port-2" "eth0") ;;
   _ <- Topo.addLink phy_sw nfv_sw (intf_names "port-3" "eth1") ;;
   _ <- Topo.addLink phy_sw faucet (intf_names "port-4" "eth4") ;;
   _ <- Topo.addLink nfv_sw dhcp_nfv (intf_names "int2" "dhcp-eth0") ;;
   _ <- Topo.addLink nfv_sw nat_nfv (intf_names "int3" "nat-eth0") ;;
   _ <- Topo.addLink nfv_sw ids_nfv (intf_names "int4" "ids-eth0") ;;
   _ <- Topo.addLink faucet nfv_sw (intf_names "eth2" "eth0") ;;
   Topo.ret (mkLocals phy_sw nfv_sw faucet dhcp_nfv nat_nfv ids_nfv h1 h2))%topo.

(** [FaucetTopo()]: the constructor run on a fresh object. *)
Definition FaucetTopo : Topo.t := snd (FaucetTopo_init Topo.empty).
Definition FaucetTopo_locals : Locals := fst (FaucetTopo_init Topo.empty).

(** The roles the script gives its nodes, read off the constructor's
    variables: the controller node is [faucet], the network-function nodes
    are the three [_nfv] variables. *)
Definition controller_nodes : list string := [faucet FaucetTopo_locals].
Definition nfv_nodes : list string :=
  [dhcp_nfv FaucetTopo_locals; nat_nfv FaucetTopo_locals; ids_nfv FaucetTopo_locals].

(** The link endpoints of a graph as (node, interface name) pairs; an
    endpoint declared without a name contributes nothing. *)
Definition endpoints_of (l : Topo.Link) : list (string * string) :=
  match Topo.intfName1 l with Some i => [(Topo.node1 l, i)] | None => [] end ++
  match Topo.intfName2 l with Some i => [(Topo.node2 l, i)] | None => [] end.

Definition endpoints (g : Topo.t) : list (string * string) :=
  flat_map endpoints_of (Topo.links g).

(** The interface names the links give to one node. *)
Definition intfs_of (g : Topo.t) (nm : string) : list string :=
  map snd (filter (fun e => String.eqb (fst e) nm) (endpoints g)).

(** ** The provisioning monad *)

(** The calls by which the script acts on the emulator and the system. *)
Inductive Event : Type :=
| NetStart                                  (* net.start() *)
| Info (msg : string)                       (* info(msg) *)
| Cmd (node cmd : string)                   (* node.cmd(cmd) *)
| QuietRun (cmd : string)                   (* quietRun(cmd) *)
| Sleep (secs : nat)                        (* sleep(secs) *)
| AttachIntf (intf node : string)           (* Intf(intf, node=node) *)
| RunCLI                                    (* CLI(net) *)
| DelIntf (node intf : string)              (* node.delIntf(intf) *)
| LinkStop (l : Topo.Link)                  (* link.stop() *)
| HostStop (host : string) (deleteIntfs : bool)  (* host.stop(deleteIntfs=..) *)
| HostTerminate (host : string)             (* host.terminate() *)
| NetStop.                                  (* net.stop() *)

Definition Trace : Type := list Event.

(** The environment decides the text a command returns, from everything
    the script has done so far; the last event of the history is the
    command being answered. *)
Definition Env : Type := Trace -> string.

(** Outcome of running a piece of the script from a given history:
    it returns, it is still looping when the iteration budget is spent, or
    it raises. *)
Inductive Res (A : Type) : Type :=
| Done (a : A) (tr : Trace)
| Hang (tr : Trace)
| Raised (exn : string) (tr : Trace).
Arguments Done {A} a tr.
Arguments Hang {A} tr.
Arguments Raised {A} exn tr.

Definition trace_of {A} (r : Res A) : Trace :=
  match r with
  | Done _ tr | Hang tr | Raised _ tr => tr
  end.

Definition M (A : Type) : Type := Env -> Trace -> Res A.

Definition ret {A} (a : A) : M A := fun _ tr => Done a tr.

Definition bind {A B} (m : M A) (f : A -> M B) : M B :=
  fun env tr =>
    match m env tr with
    | Done a tr' => f a env tr'
    | Hang tr' => Hang tr'
    | Raised e tr' => Raised e tr'
    end.

Definition raise {A} (exn : string) : M A := fun _ tr => Raised exn tr.

Declare Scope prov_scope.
Delimit Scope prov_scope with prov.
Notation "x <- m ;; k" := (bind m (fun x => k))
  (at level 61, m at next level, right associativity) : prov_scope.
Notation "m ;; k" := (bind m (fun _ => k))
  (at level 61, right associativity) : prov_scope.
Local Open Scope prov_scope.

(** A call whose result the script cannot observe. *)
Definition emit (e : Event) : M unit := fun _ tr => Done tt (tr ++ [e]).

(** A call that returns the text produced by a command. *)
Definition ask (e : Event) : M string :=
  fun env tr => Done (env (tr ++ [e])) (tr ++ [e]).

Definition info (msg : string) : M unit := emit (Info msg).
Definition sleep (secs : nat) : M unit := emit (Sleep secs).
Definition quietRun (c : string) : M string := ask (QuietRun c).
Definition cmd (node c : string) : M string := ask (Cmd node c).

(** [while marker not in poll(): body], with at most [fuel] executions of
    the body. *)
Fixpoint while_not_in {B} (marker : string) (poll : M string) (body : M B)
    (fuel : nat) : M unit :=
  fun env tr =>
    match poll env tr with
    | Done out tr1 =>
        if contains marker out then Done tt tr1
        else match fuel with
             | 0 => Hang tr1
             | S fuel' =>
                 match body env tr1 with
                 | Done _ tr2 => while_not_in marker poll body fuel' env tr2
                 | Hang tr2 => Hang tr2
                 | Raised e tr2 => Raised e tr2
                 end
             end
    | Hang tr1 => Hang tr1
    | Raised e tr1 => Raised e tr1
    end.

(** [for x in xs: body(x)] *)
Fixpoint for_each {A B} (xs : list A) (body : A -> M B) : M unit :=
  match xs with
  | [] => ret tt
  | x :: xs' => body x ;; for_each xs' body
  end.

(** ** The instantiated network *)

(** What [run] reads of the [Mininet] object: node names for [net.get],
    and the lists [net.hosts] and [net.links] it iterates over. *)
Record Net : Type := mkNet
  { net_switches : list string;
    net_hosts : list string;
    net_links : list Topo.Link }.

(** [Mininet(topo=topo, controller=None)]: every non-switch node of the
    topology becomes a host of the network. *)
Definition Mininet (topo : Topo.t) : Net :=
  {| net_switches := Topo.switches topo;
     net_hosts := Topo.hosts topo;
     net_links := Topo.links topo |}.

(** [net.get(name)] returns the node of that name and raises [KeyError]
    when there is none. Nodes are denoted by their names. *)
Definition get (net : Net) (nm : string) : M string :=
  if existsb (String.eqb nm) (net_hosts net ++ net_switches net)
  then ret nm else raise "KeyError".

(** ** The script's constant and [run] *)

Definition EXT_INT : string := "enp0s9".

(** The line feed written [\n] in the script. *)
Definition nl : string := String (ascii_of_nat 10) EmptyString.

(** The five polling loops of [run], each with the text of its [while]
    statement; [fuel] bounds the number of iterations. *)

(* lines 93-96 *)
Definition wait_faucet (fuel : nat) : M unit :=
  while_not_in "(running)" (quietRun "service faucet status")
    (sleep 1 ;;
     info "." ;;
     quietRun "service faucet start") fuel.

(* lines 100-102 *)
Definition wait_connected (fuel : nat) : M unit :=
  while_not_in "is_connected" (quietRun "ovs-vsctl show")
    (sleep 1 ;;
     info ".") fuel.

(* lines 108-111 *)
Definition wait_dnsmasq (dhcp_nfv : string) (fuel : nat) : M unit :=
  while_not_in "0.0.0.0:67" (cmd dhcp_nfv "netstat -an | grep 67")
    (sleep 2 ;;
     info "." ;;
     cmd dhcp_nfv "/usr/sbin/dnsmasq") fuel.

(* lines 117-120 for h1 and 125-128 for h2 *)
Definition wait_lease (h : string) (fuel : nat) : M unit :=
  while_not_in "10.0.0" (cmd h "ip addr show eth0 | grep -o 10.0.0.[0-9]")
    (sleep 3 ;;
     info "." ;;
     cmd h "/sbin/udhcpc -nq -t 3 -i eth0") fuel.

(** The teardown, lines 148-162. *)
Definition teardown (net : Net) (ext_int nat_nfv : string) : M unit :=
  emit (DelIntf nat_nfv ext_int) ;;
  info ("*** Stopping " ++ str_of_nat (length (net_links net)) ++ " links:") ;;
  for_each (net_links net) (fun link =>
    info "." ;;
    emit (LinkStop link)) ;;
  info nl ;;

  info ("*** Stopping " ++ str_of_nat (length (net_hosts net)) ++ " hosts: ") ;;
  for_each (net_hosts net) (fun host =>
    info (host ++ " ") ;;
    emit (HostStop host true) ;;
    emit (HostTerminate host)) ;;
  info ("...done" ++ nl) ;;

  emit NetStop.

(** The body of [run] from [net.start()] on, for a network [net] and a
    value [ext_int] of the constant [EXT_INT]. *)
Definition run_with (net : Net) (ext_int : string) (fuel : nat) : M unit :=
  emit NetStart ;;
  info ("*** Provisioning all mininet hosts" ++ nl) ;;
  sw1 <- get net "sw1" ;;
  sw2 <- get net "sw2" ;;
  cmd sw1 "ovs-vsctl set-controller sw1 tcp:127.0.0.1:6633" ;;
  cmd sw2 "ovs-vsctl set-controller sw2 tcp:127.0.0.1:6633" ;;

  info "*** Checking Faucet status" ;;
  wait_faucet fuel ;;
  info ("...running" ++ nl) ;;

  info "*** Waiting for switch to connect to controller" ;;
  wait_connected fuel ;;
  info ("...connected" ++ nl) ;;

  info "*** Checking dnsmasq running in DHCP NFV" ;;
  dhcp_nfv <- get net "dhcp" ;;
  wait_dnsmasq dhcp_nfv fuel ;;
  info ("...started" ++ nl) ;;

  info "*** Waiting for h1 to get DHCP IP address" ;;
  h1 <- get net "h1" ;;
  wait_lease h1 fuel ;;
  info ("...got IP" ++ nl) ;;

  info "*** Waiting for h2 to get DHCP IP address" ;;
  h2 <- get net "h2" ;;
  wait_lease h2 fuel ;;
  info ("...got IP" ++ nl) ;;

  info "*** Moving bridged interface into the NAT NFV.." ;;
  nat_nfv <- get net "nat" ;;
  emit (AttachIntf ext_int nat_nfv) ;;
  sleep 1 ;;
  cmd nat_nfv "/sbin/dhclient enp0s9" ;;
  info ("...done" ++ nl) ;;
  info "*** Enabling IP forwarding and Masquerading on NAT NFV.. " ;;
  cmd nat_nfv "/sbin/ifconfig lo:1 1.1.1.1/24" ;;
  cmd nat_nfv "/sbin/ifconfig lo:1 1111::1/64" ;;
  cmd nat_nfv ("/sbin/iptables -t nat -A POSTROUTING -o " ++ ext_int
               ++ " -j MASQUERADE") ;;
  cmd nat_nfv "/sbin/sysctl -q -w net.ipv4.ip_forward=1" ;;
  info ("...done" ++ nl) ;;

  emit RunCLI ;;

  teardown net ext_int nat_nfv.

(** [run()]: the topology is built, the network instantiated from it, and
    the body runs from the empty history. *)
Definition run (fuel : nat) (env : Env) : Res unit :=
  let topo := FaucetTopo in
  let net := Mininet topo in
  run_with net EXT_INT fuel env [].


(** ** The polling steps as a table *)

Inductive PollStep : Type :=
| FaucetRunning      (* controller-service check *)
| SwitchConnected    (* switch-to-controller connection wait *)
| DnsmasqListening   (* DHCP-server listening check *)
| LeaseH1            (* DHCP-lease wait of host h1 *)
| LeaseH2.           (* DHCP-lease wait of host h2 *)

Definition poll_loop (s : PollStep) : nat -> M unit :=
  match s with
  | FaucetRunning => wait_faucet
  | SwitchConnected => wait_connected
  | DnsmasqListening => wait_dnsmasq "dhcp"
  | LeaseH1 => wait_lease "h1"
  | LeaseH2 => wait_lease "h2"
  end.

(** The text whose presence ends the loop. *)
Definition marker (s : PollStep) : string :=
  match s with
  | FaucetRunning => "(running)"
  | SwitchConnected => "is_connected"
  | DnsmasqListening => "0.0.0.0:67"
  | LeaseH1 | LeaseH2 => "10.0.0"
  end.

(** The call in the loop's condition. *)
Definition poll_event (s : PollStep) : Event :=
  match s with
  | FaucetRunning => QuietRun "service faucet status"
  | SwitchConnected => QuietRun "ovs-vsctl show"
  | DnsmasqListening => Cmd "dhcp" "netstat -an | grep 67"
  | LeaseH1 => Cmd "h1" "ip addr show eth0 | grep -o 10.0.0.[0-9]"
  | LeaseH2 => Cmd "h2" "ip addr show eth0 | grep -o 10.0.0.[0-9]"
  end.

(** The calls of the loop's body. *)
Definition body_events (s : PollStep) : list Event :=
  match s with
  | FaucetRunning => [Sleep 1; Info "."; QuietRun "service faucet start"]
  | SwitchConnected => [Sleep 1; Info "."]
  | DnsmasqListening => [Sleep 2; Info "."; Cmd "dhcp" "/usr/sbin/dnsmasq"]
  | LeaseH1 => [Sleep 3; Info "."; Cmd "h1" "/sbin/udhcpc -nq -t 3 -i eth0"]
  | LeaseH2 => [Sleep 3; Info "."; Cmd "h2" "/sbin/udhcpc -nq -t 3 -i eth0"]
  end.

(** A call that runs a command, as opposed to waiting or logging. *)
Definition is_command (e : Event) : bool :=
  match e with
  | Cmd _ _ | QuietRun _ => true
  | _ => false
  end.

(** The calls made by [k] failed iterations of a loop polling with [p] and
    running the body [b]. *)
Definition rounds (p : Event) (b : list Event) (k : nat) : Trace :=
  concat (repeat (p :: b) k).

Definition step_rounds (s : PollStep) (k : nat) : Trace :=
  rounds (poll_event s) (body_events s) k.

(** The text observed by the poll that follows [k] failed iterations of the
    loop of step [s] entered with history [tr0]. *)
Definition observation (s : PollStep) (env : Env) (tr0 : Trace) (k : nat) : string :=
  env (tr0 ++ step_rounds s k ++ [poll_event s]).

(** ** Ordering of calls in a history *)

(** Every occurrence of [a] precedes every occurrence of [b]. *)
Definition before (tr : Trace) (a b : Event) : Prop :=
  forall i j, nth_error tr i = Some a -> nth_error tr j = Some b -> i < j.

(** The calls of the teardown, in order. *)
Definition teardown_trace (net : Net) (ext_int nat_nfv : string) : Trace :=
  [DelIntf nat_nfv ext_int;
   Info ("*** Stopping " ++ str_of_nat (length (net_links net)) ++ " links:")]
  ++ flat_map (fun l => [Info "."; LinkStop l]) (net_links net)
  ++ [Info nl;
      Info ("*** Stopping " ++ str_of_nat (length (net_hosts net)) ++ " hosts: ")]
  ++ flat_map (fun h => [Info (h ++ " "); HostStop h true; HostTerminate h])
       (net_hosts net)
  ++ [Info ("...done" ++ nl); NetStop].

(** ** Addresses and the lease check's command *)

Record IPv4 : Type := ipv4 { oct1 : nat; oct2 : nat; oct3 : nat; oct4 : nat }.

(** Dotted-decimal text of an address. *)
Definition dotted (a : IPv4) : string :=
  str_of_nat (oct1 a) ++ "." ++ str_of_nat (oct2 a) ++ "." ++
  str_of_nat (oct3 a) ++ "." ++ str_of_nat (oct4 a).

(** Membership in the subnet 10.0.0.0/24 the DHCP server hands out. *)
Definition in_subnet_10_0_0 (a : IPv4) : bool :=
  Nat.eqb (oct1 a) 10 && Nat.eqb (oct2 a) 0 && Nat.eqb (oct3 a) 0.

(** The regular expression the script passes to [grep -o], one item per
    character: a literal, [.] (any character of the line) or [[0-9]]. *)
Inductive PatItem : Type := Lit (c : ascii) | AnyChar | DigitChar.

(* 10.0.0.[0-9] *)
Definition lease_pattern : list PatItem :=
  [Lit "1"; Lit "0"; AnyChar; Lit "0"; AnyChar; Lit "0"; AnyChar; DigitChar]%char.

Definition is_digit (c : ascii) : bool :=
  let n := nat_of_ascii c in Nat.leb 48 n && Nat.leb n 57.

Definition item_matches (i : PatItem) (c : ascii) : bool :=
  match i with
  | Lit l => Ascii.eqb l c
  | AnyChar => negb (Ascii.eqb c (ascii_of_nat 10))
  | DigitChar => is_digit c
  end.

(** The text matched by the pattern at the start of [s], if any. *)
Fixpoint match_here (pat : list PatItem) (s : string) : option string :=
  match pat, s with
  | [], _ => Some EmptyString
  | i :: pat', String c s' =>
      if item_matches i c then
        match match_here pat' s' with
        | Some m => Some (String c m)
        | None => None
        end
      else None
  | _ :: _, EmptyString => None
  end.

(** [grep -o pat]: every leftmost non-overlapping match, one per line.
    [skip] counts the characters of the last match still to pass over. *)
Fixpoint grep_o_from (pat : list PatItem) (skip : nat) (s : string) : string :=
  match s with
  | EmptyString => EmptyString
  | String _ s' =>
      match skip with
      | S k => grep_o_from pat k s'
      | 0 =>
          match match_here pat s with
          | Some m => m ++ nl ++ grep_o_from pat (String.length m - 1) s'
          | None => grep_o_from pat 0 s'
          end
      end
  end.

Definition grep_o (pat : list PatItem) (s : string) : string :=
  grep_o_from pat 0 s.

(** The line of [ip addr show eth0] that carries the interface's address. *)
Definition ip_addr_show (a : IPv4) : string :=
  "    inet " ++ dotted a ++ "/24 scope global eth0" ++ nl.

(** What [ip addr show eth0 | grep -o 10.0.0.[0-9]] prints on a host whose
    interface has address [a]. *)
Definition lease_check_output (a : IPv4) : string :=
  grep_o lease_pattern (ip_addr_show a).

(** ** Switch attributes *)

(** A comma-separated list, as the switch takes its [protocols]. *)
Fixpoint split_commas (acc : string) (s : string) : list string :=
  match s with
  | EmptyString => [acc]
  | String c s' =>
      if Ascii.eqb c ","%char then acc :: split_commas EmptyString s'
      else split_commas (acc ++ String c EmptyString) s'
  end.

Definition protocol_versions (n : Topo.Node) : list string :=
  match Topo.str_opt "protocols" (Topo.opts n) with
  | Some s => split_commas EmptyString s
  | None => []
  end.

Definition dpid (n : Topo.Node) : option string :=
  Topo.str_opt "dpid" (Topo.opts n).

Definition ip (n : Topo.Node) : option string :=
  Topo.str_opt "ip" (Topo.opts n).

Definition inNamespace (n : Topo.Node) : bool :=
  Topo.flag "inNamespace" (Topo.opts n).


(** The placeholder address given to nodes configured later. *)
Definition placeholder_ip : string := "0.0.0.0".

(** A node declared with an address other than the placeholder. *)
Definition has_static_ip (n : Topo.Node) : bool :=
  match ip n with
  | Some a => negb (String.eqb a placeholder_ip)
  | None => false
  end.

Definition has_placeholder_ip (n : Topo.Node) : bool :=
  match ip n with
  | Some a => String.eqb a placeholder_ip
  | None => false
  end.

(** A link joins two different declared nodes and names the interface on
    each end. *)
Definition well_formed_link (g : Topo.t) (l : Topo.Link) : Prop :=
  In (Topo.node1 l) (map Topo.name (Topo.nodes g)) /\
  In (Topo.node2 l) (map Topo.name (Topo.nodes g)) /\
  Topo.node1 l <> Topo.node2 l /\
  (exists i1 i2, Topo.intfName1 l = Some i1 /\ Topo.intfName2 l = Some i2).

(** ** The calls of a completed run *)

(** Calls made before the first polling step. *)
Definition prologue : Trace :=
  [NetStart;
   Info ("*** Provisioning all mininet hosts" ++ nl);
   Cmd "sw1" "ovs-vsctl set-controller sw1 tcp:127.0.0.1:6633";
   Cmd "sw2" "ovs-vsctl set-controller sw2 tcp:127.0.0.1:6633"].

(** The messages logged before and after each polling loop. *)
Definition banner (s : PollStep) : Event :=
  match s with
  | FaucetRunning => Info "*** Checking Faucet status"
  | SwitchConnected => Info "*** Waiting for switch to connect to controller"
  | DnsmasqListening => Info "*** Checking dnsmasq running in DHCP NFV"
  | LeaseH1 => Info "*** Waiting for h1 to get DHCP IP address"
  | LeaseH2 => Info "*** Waiting for h2 to get DHCP IP address"
  end.

Definition done_msg (s : PollStep) : Event :=
  match s with
  | FaucetRunning => Info ("...running" ++ nl)
  | SwitchConnected => Info ("...connected" ++ nl)
  | DnsmasqListening => Info ("...started" ++ nl)
  | LeaseH1 | LeaseH2 => Info ("...got IP" ++ nl)
  end.

(** The calls of one polling step that returns after [k] failed polls. *)
Definition step_trace (s : PollStep) (k : nat) : Trace :=
  banner s :: step_rounds s k ++ [poll_event s; done_msg s].

(** Steps 6 to 8: the external interface and the NAT rules. *)
Definition nat_setup_trace (ext_int : string) : Trace :=
  [Info "*** Moving bridged interface into the NAT NFV..";
   AttachIntf ext_int "nat";
   Sleep 1;
   Cmd "nat" "/sbin/dhclient enp0s9";
   Info ("...done" ++ nl);
   Info "*** Enabling IP forwarding and Masquerading on NAT NFV.. ";
   Cmd "nat" "/sbin/ifconfig lo:1 1.1.1.1/24";
   Cmd "nat" "/sbin/ifconfig lo:1 1111::1/64";
   Cmd "nat" ("/sbin/iptables -t nat -A POSTROUTING -o " ++ ext_int
              ++ " -j MASQUERADE");
   Cmd "nat" "/sbin/sysctl -q -w net.ipv4.ip_forward=1";
   Info ("...done" ++ nl)].

(** The calls up to the interactive shell, when the five loops return
    after [k1] .. [k5] failed polls. *)
Definition provision_trace (ext_int : string) (k1 k2 k3 k4 k5 : nat) : Trace :=
  prologue
  ++ step_trace FaucetRunning k1
  ++ step_trace SwitchConnected k2
  ++ step_trace DnsmasqListening k3
  ++ step_trace LeaseH1 k4
  ++ step_trace LeaseH2 k5
  ++ nat_setup_trace ext_int.

Definition run_trace (net : Net) (ext_int : string) (k1 k2 k3 k4 k5 : nat) : Trace :=
  provision_trace ext_int k1 k2 k3 k4 k5
  ++ RunCLI :: teardown_trace net ext_int "nat".

(** ** Environments *)

(** The marker of step [s] never appears in what its poll returns. *)
Definition never_shows (s : PollStep) (env : Env) : Prop :=
  forall h, contains (marker s) (env (h ++ [poll_event s])) = false.

(** An environment in which no command prints anything. *)
Definition silent_env : Env := fun _ => EmptyString.

(** An environment in which every poll finds its marker at once. *)
Definition ready_env : Env :=
  fun _ => "faucet (running) is_connected 0.0.0.0:67 10.0.0.5".

(** An environment in which nothing is printed until the script has made
    [n] calls, and every marker afterwards. *)
Definition late_env (n : nat) : Env :=
  fun h => if Nat.ltb (length h) n then EmptyString else ready_env h.

(** ** Calls named by the properties *)

(** Step 1: the controller-address assignment on each switch. *)
Definition set_controller_sw1 : Event :=
  Cmd "sw1" "ovs-vsctl set-controller sw1 tcp:127.0.0.1:6633".
Definition set_controller_sw2 : Event :=
  Cmd "sw2" "ovs-vsctl set-controller sw2 tcp:127.0.0.1:6633".

(** A piece of the script only ever adds calls to the history. *)
Definition extends {A} (m : M A) : Prop :=
  forall env tr, exists suffix, trace_of (m env tr) = tr ++ suffix.

(** The calls that belong to the teardown. *)
Definition is_teardown_call (e : Event) : bool :=
  match e with
  | DelIntf _ _ | LinkStop _ | HostStop _ _ | HostTerminate _ | NetStop => true
  | _ => false
  end.

(** A DHCP-client request on interface [intf], made on the NAT node. *)
Definition dhclient_on (intf : string) : Event :=
  Cmd "nat" ("/sbin/dhclient " ++ intf).

(** ** What a failed iteration does *)

(** Seconds slept by one iteration of the loop of each step. *)
Definition interval (s : PollStep) : nat :=
  match s with
  | FaucetRunning | SwitchConnected => 1
  | DnsmasqListening => 2
  | LeaseH1 | LeaseH2 => 3
  end.

(** The command an iteration issues after sleeping and logging; the
    connection wait issues none. *)
Definition retry (s : PollStep) : list Event :=
  match s with
  | FaucetRunning => [QuietRun "service faucet start"]
  | SwitchConnected => []
  | DnsmasqListening => [Cmd "dhcp" "/usr/sbin/dnsmasq"]
  | LeaseH1 => [Cmd "h1" "/sbin/udhcpc -nq -t 3 -i eth0"]
  | LeaseH2 => [Cmd "h2" "/sbin/udhcpc -nq -t 3 -i eth0"]
  end.

(** The calls of one failed iteration of the loop of step [s], as its
    [while] statement has them: the poll of the condition, then the body:
    [sleep], the dot logged with [info], and the retry. *)
Definition iteration (s : PollStep) : list Event :=
  poll_event s :: Sleep (interval s) :: Info "." :: retry s.

(** The reading of "an unmet iteration re-issues the initiating action
    before polling again": when the loop of step [s] returns at its second
    poll, some command was run between the two polls. *)
Definition reissues_between_polls (s : PollStep) : Prop :=
  forall env tr0 between,
    contains (marker s) (env (tr0 ++ [poll_event s])) = false ->
    poll_loop s 1 env tr0
    = Done tt (tr0 ++ poll_event s :: between ++ [poll_event s]) ->
    existsb is_command between = true.

(** The reading of "the lease wait does not terminate on an unrelated
    address": when the host's address is outside 10.0.0.0/24, the loop does
    not return at the poll that reports it. *)
Definition exits_only_in_subnet (s : PollStep) : Prop :=
  forall a fuel env tr0,
    in_subnet_10_0_0 a = false ->
    env (tr0 ++ [poll_event s]) = lease_check_output a ->
    poll_loop s fuel env tr0 <> Done tt (tr0 ++ [poll_event s]).

(** ** Outcomes of a whole run *)


(** [t] is an initial part of [full]. *)
Definition is_prefix (t full : Trace) : Prop :=
  exists suffix, full = t ++ suffix.

(** The names [run] passes to [net.get]. *)
Definition looked_up : list string := ["sw1"; "sw2"; "dhcp"; "h1"; "h2"; "nat"].

(** The network has a node of that name. *)
Definition has_node (net : Net) (nm : string) : bool :=
  existsb (String.eqb nm) (net_hosts net ++ net_switches net).

Definition has_nodes (net : Net) : bool := forallb (has_node net) looked_up.

(** The history is an initial part of the calls that precede the
    interactive shell, for some numbers of failed polls within the
    budget. *)
Definition stopped_early (ext_int : string) (fuel : nat) (t : Trace) : Prop :=
  exists k1 k2 k3 k4 k5,
    (k1 <= fuel /\ k2 <= fuel /\ k3 <= fuel /\ k4 <= fuel /\ k5 <= fuel) /\
    is_prefix t (provision_trace ext_int k1 k2 k3 k4 k5).

(** What a run of the script can be:
    - it returns, after the calls of [run_trace];
    - it is still polling in the loop of some step, whose marker was in none
      of the texts polled so far;
    - it raises [KeyError] at the lookup of a node the network lacks. *)
Definition run_outcome (net : Net) (ext_int : string) (fuel : nat) (env : Env)
    (r : Res unit) : Prop :=
  (has_nodes net = true /\
   exists k1 k2 k3 k4 k5,
     (k1 <= fuel /\ k2 <= fuel /\ k3 <= fuel /\ k4 <= fuel /\ k5 <= fuel) /\
     r = Done tt (run_trace net ext_int k1 k2 k3 k4 k5)) \/
  (exists s tr0,
     r = Hang (tr0 ++ step_rounds s fuel ++ [poll_event s]) /\
     (forall j, j <= fuel ->
        contains (marker s) (observation s env tr0 j) = false) /\
     stopped_early ext_int fuel (trace_of r)) \/
  (exists nm t,
     r = Raised "KeyError" t /\
     In nm looked_up /\ has_node net nm = false /\
     stopped_early ext_int fuel t).

(** Within [fuel] failed iterations, every loop polls a text with its
    marker, from whatever history it is entered. *)
Definition shows_within (fuel : nat) (env : Env) : Prop :=
  forall s tr0, exists k,
    k <= fuel /\ contains (marker s) (observation s env tr0 k) = true.

(** Every poll finds its marker at once. *)
Definition always_shows (env : Env) : Prop :=
  forall s h, contains (marker s) (env (h ++ [poll_event s])) = true.

(** An environment in which the commands run on [node] print nothing until
    the script has made [n] calls, and every other command prints every
    marker. *)
Definition slow_node_env (node : string) (n : nat) : Env :=
  fun h =>
    match last h NetStart with
    | Cmd nm _ =>
        if String.eqb nm node && Nat.ltb (length h) n then EmptyString
        else ready_env h
    | _ => ready_env h
    end.


(** ** The steps in order *)

(** Position of a polling step in the script. *)
Definition step_index (s : PollStep) : nat :=
  match s with
  | FaucetRunning => 0
  | SwitchConnected => 1
  | DnsmasqListening => 2
  | LeaseH1 => 3
  | LeaseH2 => 4
  end.

(** The commands of a polling step: its poll and its retry. *)
Definition step_call (s : PollStep) (a : Event) : Prop :=
  a = poll_event s \/ In a (retry s).

(** The interactive shell and everything after it. *)
Definition is_late_call (e : Event) : bool :=
  match e with
  | RunCLI => true
  | _ => is_teardown_call e
  end.

(** ** Counting calls *)

Definition PyVal_eq_dec (a b : Topo.PyVal) : {a = b} + {a <> b}.
Proof. decide equality; [apply string_dec | apply bool_dec]. Defined.

Definition Link_eq_dec (a b : Topo.Link) : {a = b} + {a <> b}.
Proof.
  decide equality; try apply string_dec.
  apply list_eq_dec. decide equality; [apply PyVal_eq_dec | apply string_dec].
Defined.

Definition Event_eq_dec (a b : Event) : {a = b} + {a <> b}.
Proof.
  decide equality;
    try apply string_dec; try apply Nat.eq_dec; try apply bool_dec;
    apply Link_eq_dec.
Defined.

(** Number of times the call [e] occurs in a history. *)
Definition occurrences (e : Event) (tr : Trace) : nat :=
  count_occ Event_eq_dec tr e.

(** Seconds spent in [sleep] over a history. *)
Fixpoint slept (tr : Trace) : nat :=
  match tr with
  | [] => 0
  | Sleep secs :: tr' => secs + slept tr'
  | _ :: tr' => slept tr'
  end.

(** The number at the position of step [s]. *)
Definition at_step (s : PollStep) (k1 k2 k3 k4 k5 : nat) : nat :=
  match s with
  | FaucetRunning => k1
  | SwitchConnected => k2
  | DnsmasqListening => k3
  | LeaseH1 => k4
  | LeaseH2 => k5
  end.

(** ** The NAT node and the teardown, call by call *)

(** The masquerade rule installed on the NAT node for interface [intf]. *)
Definition masquerade_rule (intf : string) : Event :=
  Cmd "nat" ("/sbin/iptables -t nat -A POSTROUTING -o " ++ intf ++ " -j MASQUERADE").

(** Attaching or detaching an interface. *)
Definition is_intf_call (e : Event) : bool :=
  match e with
  | AttachIntf _ _ | DelIntf _ _ => true
  | _ => false
  end.

(** The links stopped over a history, in order. *)
Definition stopped_links (tr : Trace) : list Topo.Link :=
  flat_map (fun e => match e with LinkStop l => [l] | _ => [] end) tr.

(** What is done to hosts over a history, in order: [inl (h, d)] for
    [h.stop(deleteIntfs=d)], [inr h] for [h.terminate()]. *)
Definition host_calls (tr : Trace) : list (string * bool + string) :=
  flat_map (fun e => match e with
                     | HostStop h d => [inl (h, d)]
                     | HostTerminate h => [inr h]
                     | _ => []
                     end) tr.

(** ** Paths in the topology *)

(** Some link joins [a] and [b], in either direction. *)
Definition linkedb (g : Topo.t) (a b : string) : bool :=
  existsb (fun l =>
             (String.eqb (Topo.node1 l) a && String.eqb (Topo.node2 l) b) ||
             (String.eqb (Topo.node1 l) b && String.eqb (Topo.node2 l) a))
          (Topo.links g).

(** A path of links leads from the first node to the second. *)
Inductive connected (g : Topo.t) : string -> string -> Prop :=
| conn_refl (a : string) : connected g a a
| conn_step (a b c : string) :
    linkedb g a b = true -> connected g b c -> connected g a c.

(** * Properties of the declared topology *)

  (** Interface names of one node are distinct as soon as the
      (node, interface) pairs of the graph are. *)
Lemma intfs_of_NoDup (t : Topo.t) (nm : string) :
    NoDup (endpoints t) -> NoDup (intfs_of t nm).
Proof.
    unfold intfs_of. generalize (endpoints t) as l.
    induction l as [|[n i] l IH]; intros Hnd; simpl.
    - constructor.
    - inversion Hnd as [|? ? Hnotin Hnd']; subst.
      destruct (String.eqb n nm) eqn:E; simpl; auto.
      apply String.eqb_eq in E; subst n.
      constructor; auto.
      intros Hin. apply in_map_iff in Hin as [[n' i'] [Hi Hf]].
      simpl in Hi; subst i'. apply filter_In in Hf as [Hf E'].
      simpl in E'. apply String.eqb_eq in E'. subst n'. contradiction.
Qed.

Lemma endpoints_FaucetTopo_NoDup : NoDup (endpoints FaucetTopo).
Proof.
    vm_compute.
    repeat (constructor;
            [ simpl; intros H;
              repeat (destruct H as [H|H]; [discriminate H|]); exact H | ]).
    constructor.
Qed.


(** C3: the declared topology has exactly two switches, one controller
    node, three network-function nodes and two hosts (eight nodes in all),
    and eight links, each joining two different declared nodes with an
    interface name given on both ends. *)
Theorem topology_census :
  Topo.declared_by Topo.AddSwitch FaucetTopo = ["sw1"; "sw2"] /\
  Topo.switches FaucetTopo = ["sw1"; "sw2"] /\
  controller_nodes = ["faucet"] /\
  nfv_nodes = ["dhcp"; "nat"; "ids"] /\
  Topo.declared_by Topo.AddNode FaucetTopo = controller_nodes ++ nfv_nodes /\
  Topo.declared_by Topo.AddHost FaucetTopo = ["h1"; "h2"] /\
  length (Topo.nodes FaucetTopo) = 2 + 1 + 3 + 2 /\
  NoDup (map Topo.name (Topo.nodes FaucetTopo)) /\
  length (Topo.links FaucetTopo) = 8 /\
  Forall (well_formed_link FaucetTopo) (Topo.links FaucetTopo).
Proof.
  repeat split; try reflexivity.
  - vm_compute.
    repeat (constructor;
            [ simpl; intros H;
              repeat (destruct H as [H|H]; [discriminate H|]); exact H | ]).
    constructor.
  - vm_compute.
    repeat (constructor;
            [ repeat split;
              [ tauto | tauto | discriminate | eexists; eexists; split; reflexivity ] | ]).
    constructor.
Qed.

(** C8: on every node, the interface names given by the eight links are
    pairwise distinct; one name may serve on different nodes, as [eth0]
    does on h1, h2 and sw2. *)
Theorem interface_names_unique_per_node :
  (forall nm : string, NoDup (intfs_of FaucetTopo nm)) /\
  length (endpoints FaucetTopo) = 2 * 8 /\
  (In "eth0" (intfs_of FaucetTopo "h1") /\
   In "eth0" (intfs_of FaucetTopo "h2") /\
   In "eth0" (intfs_of FaucetTopo "sw2")).
Proof.
  split.
  - intros nm. apply intfs_of_NoDup, endpoints_FaucetTopo_NoDup.
  - split; [reflexivity|]. vm_compute. tauto.
Qed.

(** C9: the two switches have the datapath identifiers 1 and 2, which
    differ, and each is restricted to the single protocol version
    OpenFlow13. *)
Theorem switches_pinned :
  exists s1 s2,
    filter Topo.isSwitch (Topo.nodes FaucetTopo) = [s1; s2] /\
    Topo.name s1 = "sw1" /\ Topo.name s2 = "sw2" /\
    dpid s1 = Some "1" /\ dpid s2 = Some "2" /\ dpid s1 <> dpid s2 /\
    protocol_versions s1 = ["OpenFlow13"] /\
    protocol_versions s2 = ["OpenFlow13"].
Proof.
  do 2 eexists. split; [reflexivity|].
  repeat split; try reflexivity. discriminate.
Qed.

(** C10: exactly the DHCP node (10.0.0.254) and the NAT node (10.0.0.1)
    are declared with an address other than the placeholder; the
    controller, the intrusion-detection node and both hosts are declared
    with 0.0.0.0; the switches are declared without an address; and the
    non-switch nodes declared with [inNamespace] set are exactly the three
    network-function nodes. *)
Theorem static_addresses_and_namespaces :
  map (fun n => (Topo.name n, ip n))
      (filter has_static_ip (Topo.nodes FaucetTopo))
    = [("dhcp", Some "10.0.0.254"); ("nat", Some "10.0.0.1")] /\
  map Topo.name (filter has_placeholder_ip (Topo.nodes FaucetTopo))
    = ["faucet"; "ids"; "h1"; "h2"] /\
  map Topo.name (filter (fun n => match ip n with None => true | _ => false end)
                        (Topo.nodes FaucetTopo))
    = ["sw1"; "sw2"] /\
  map Topo.name
      (filter (fun n => negb (Topo.isSwitch n) && inNamespace n)
              (Topo.nodes FaucetTopo))
    = nfv_nodes.
Proof. repeat split. Qed.


(** * Properties of the provisioning monad *)

Lemma rounds_S (p : Event) (b : list Event) (k : nat) :
  rounds p b (S k) = (p :: b) ++ rounds p b k.
Proof. reflexivity. Qed.

Lemma rounds_shift (p : Event) (b : list Event) (tr : Trace) (k : nat) :
  tr ++ rounds p b (S k) ++ [p] = (tr ++ p :: b) ++ rounds p b k ++ [p].
Proof. rewrite rounds_S, <- !app_assoc. reflexivity. Qed.

Lemma in_rounds (p : Event) (b : list Event) (k : nat) (e : Event) :
  In e (rounds p b k) -> e = p \/ In e b.
Proof.
  unfold rounds. intros H. apply in_concat in H as [l [Hl He]].
  apply repeat_spec in Hl. subst l. destruct He; auto.
Qed.

Section LoopFacts.

Context {B : Type}.
Variables (mk : string) (p : Event) (b : list Event).
Variables (poll : M string) (body : M B).

(** The condition makes one call and returns its text; the body makes the
    calls [b] and returns. *)
Hypothesis poll_asks :
  forall env tr, poll env tr = Done (env (tr ++ [p])) (tr ++ [p]).
Hypothesis body_emits :
  forall env tr, exists x, body env tr = Done x (tr ++ b).

Lemma while_exit (fuel : nat) (env : Env) (tr : Trace) :
  contains mk (env (tr ++ [p])) = true ->
  while_not_in mk poll body fuel env tr = Done tt (tr ++ [p]).
Proof.
  intros H. destruct fuel; simpl; rewrite poll_asks, H; reflexivity.
Qed.

Lemma while_unmet (fuel : nat) (env : Env) (tr : Trace) :
  contains mk (env (tr ++ [p])) = false ->
  while_not_in mk poll body (S fuel) env tr
  = while_not_in mk poll body fuel env (tr ++ p :: b).
Proof.
  intros H. simpl. rewrite poll_asks, H.
  destruct (body_emits env (tr ++ [p])) as [x Hx]. rewrite Hx.
  rewrite <- app_assoc. reflexivity.
Qed.

Lemma while_spent (env : Env) (tr : Trace) :
  contains mk (env (tr ++ [p])) = false ->
  while_not_in mk poll body 0 env tr = Hang (tr ++ [p]).
Proof. intros H. simpl. rewrite poll_asks, H. reflexivity. Qed.

(** The loop returns at the first poll whose text has the marker. *)
Lemma while_exits_at (k fuel : nat) (env : Env) (tr : Trace) :
  k <= fuel ->
  (forall j, j < k -> contains mk (env (tr ++ rounds p b j ++ [p])) = false) ->
  contains mk (env (tr ++ rounds p b k ++ [p])) = true ->
  while_not_in mk poll body fuel env tr = Done tt (tr ++ rounds p b k ++ [p]).
Proof.
  revert fuel tr. induction k as [|k IH]; intros fuel tr Hle Hlt Hk.
  - apply while_exit. exact Hk.
  - destruct fuel as [|fuel]; [lia|].
    rewrite while_unmet by (apply (Hlt 0); lia).
    rewrite rounds_shift. apply IH.
    + lia.
    + intros j Hj. rewrite <- rounds_shift. apply Hlt. lia.
    + rewrite <- rounds_shift. exact Hk.
Qed.

(** Without the marker the loop uses up any budget. *)
Lemma while_hangs (fuel : nat) (env : Env) (tr : Trace) :
  (forall j, j <= fuel -> contains mk (env (tr ++ rounds p b j ++ [p])) = false) ->
  while_not_in mk poll body fuel env tr = Hang (tr ++ rounds p b fuel ++ [p]).
Proof.
  revert tr. induction fuel as [|fuel IH]; intros tr H.
  - apply while_spent. apply (H 0). lia.
  - rewrite while_unmet by (apply (H 0); lia).
    rewrite rounds_shift. apply IH.
    intros j Hj. rewrite <- rounds_shift. apply H. lia.
Qed.

(** Every outcome of the loop is one of the two above. *)
Lemma while_cases (fuel : nat) (env : Env) (tr : Trace) :
  (exists k, k <= fuel /\
     (forall j, j < k -> contains mk (env (tr ++ rounds p b j ++ [p])) = false) /\
     contains mk (env (tr ++ rounds p b k ++ [p])) = true /\
     while_not_in mk poll body fuel env tr = Done tt (tr ++ rounds p b k ++ [p]))
  \/
  ((forall j, j <= fuel -> contains mk (env (tr ++ rounds p b j ++ [p])) = false) /\
   while_not_in mk poll body fuel env tr = Hang (tr ++ rounds p b fuel ++ [p])).
Proof.
  revert tr. induction fuel as [|fuel IH]; intros tr.
  - destruct (contains mk (env (tr ++ [p]))) eqn:E.
    + left. exists 0. repeat split; auto; try lia.
      apply while_exit. exact E.
    + right. split.
      * intros j Hj. replace j with 0 by lia. exact E.
      * apply while_spent. exact E.
  - destruct (contains mk (env (tr ++ [p]))) eqn:E.
    + left. exists 0. repeat split; auto; try lia.
      apply while_exit. exact E.
    + rewrite while_unmet by exact E.
      destruct (IH (tr ++ p :: b)) as [[k [Hk [Hlt [Hat Hr]]]] | [Hall Hr]].
      * left. exists (S k). rewrite rounds_shift. repeat split; auto; try lia.
        intros [|j] Hj; [exact E|].
        rewrite rounds_shift. apply Hlt. lia.
      * right. rewrite rounds_shift. split; auto.
        intros [|j] Hj; [exact E|].
        rewrite rounds_shift. apply Hall. lia.
Qed.

End LoopFacts.

(** ** The five loops of [run] against the table *)

Lemma ask_asks (e : Event) (env : Env) (tr : Trace) :
  ask e env tr = Done (env (tr ++ [e])) (tr ++ [e]).
Proof. reflexivity. Qed.

Lemma emit3_ask (e1 e2 e3 : Event) (env : Env) (tr : Trace) :
  exists x, (emit e1 ;; emit e2 ;; ask e3) env tr = Done x (tr ++ [e1; e2; e3]).
Proof.
  eexists. unfold bind, emit, ask. rewrite <- !app_assoc. reflexivity.
Qed.

Lemma emit2 (e1 e2 : Event) (env : Env) (tr : Trace) :
  exists x, (emit e1 ;; emit e2) env tr = Done x (tr ++ [e1; e2]).
Proof.
  eexists. unfold bind, emit. rewrite <- !app_assoc. reflexivity.
Qed.

(** Applies a lemma of [LoopFacts] to the loop of each step. *)
Ltac by_loop_fact lem :=
  match goal with
  | s : PollStep |- _ =>
      destruct s; simpl poll_loop; simpl marker; simpl poll_event;
      simpl body_events; unfold step_rounds; simpl poll_event;
      simpl body_events;
      unfold wait_faucet, wait_connected, wait_dnsmasq, wait_lease,
             quietRun, cmd, sleep, info;
      (apply lem; solve [ apply ask_asks | apply emit3_ask | apply emit2 | assumption | lia ])
  end.

Lemma poll_loop_exit (s : PollStep) (fuel : nat) (env : Env) (tr : Trace) :
  contains (marker s) (env (tr ++ [poll_event s])) = true ->
  poll_loop s fuel env tr = Done tt (tr ++ [poll_event s]).
Proof. intros H. by_loop_fact @while_exit. Qed.

Lemma poll_loop_unmet (s : PollStep) (fuel : nat) (env : Env) (tr : Trace) :
  contains (marker s) (env (tr ++ [poll_event s])) = false ->
  poll_loop s (S fuel) env tr
  = poll_loop s fuel env (tr ++ poll_event s :: body_events s).
Proof. intros H. by_loop_fact @while_unmet. Qed.

Lemma poll_loop_exits_at (s : PollStep) (k fuel : nat) (env : Env) (tr : Trace) :
  k <= fuel ->
  (forall j, j < k -> contains (marker s) (observation s env tr j) = false) ->
  contains (marker s) (observation s env tr k) = true ->
  poll_loop s fuel env tr = Done tt (tr ++ step_rounds s k ++ [poll_event s]).
Proof. unfold observation. intros Hle Hlt Hk. by_loop_fact @while_exits_at. Qed.

Lemma poll_loop_hangs (s : PollStep) (fuel : nat) (env : Env) (tr : Trace) :
  (forall j, j <= fuel -> contains (marker s) (observation s env tr j) = false) ->
  poll_loop s fuel env tr = Hang (tr ++ step_rounds s fuel ++ [poll_event s]).
Proof. unfold observation. intros H. by_loop_fact @while_hangs. Qed.

Lemma poll_loop_cases (s : PollStep) (fuel : nat) (env : Env) (tr : Trace) :
  (exists k, k <= fuel /\
     (forall j, j < k -> contains (marker s) (observation s env tr j) = false) /\
     contains (marker s) (observation s env tr k) = true /\
     poll_loop s fuel env tr = Done tt (tr ++ step_rounds s k ++ [poll_event s]))
  \/
  ((forall j, j <= fuel -> contains (marker s) (observation s env tr j) = false) /\
   poll_loop s fuel env tr = Hang (tr ++ step_rounds s fuel ++ [poll_event s])).
Proof. unfold observation. by_loop_fact @while_cases. Qed.

(** ** Stepping through [run] *)

Lemma bind_emit {B} (e : Event) (k : unit -> M B) (env : Env) (tr : Trace) :
  bind (emit e) k env tr = k tt env (tr ++ [e]).
Proof. reflexivity. Qed.

Lemma bind_ask {B} (e : Event) (k : string -> M B) (env : Env) (tr : Trace) :
  bind (ask e) k env tr = k (env (tr ++ [e])) env (tr ++ [e]).
Proof. reflexivity. Qed.

Lemma bind_get {B} (net : Net) (nm : string) (k : string -> M B)
    (env : Env) (tr : Trace) :
  bind (get net nm) k env tr
  = if existsb (String.eqb nm) (net_hosts net ++ net_switches net)
    then k nm env tr else Raised "KeyError" tr.
Proof.
  unfold bind, get.
  destruct (existsb (String.eqb nm) (net_hosts net ++ net_switches net));
    reflexivity.
Qed.

Lemma bind_get_Done {B} (net : Net) (nm : string) (k : string -> M B)
    (env : Env) (tr : Trace) (x : B) (tr' : Trace) :
  bind (get net nm) k env tr = Done x tr' ->
  existsb (String.eqb nm) (net_hosts net ++ net_switches net) = true /\
  k nm env tr = Done x tr'.
Proof.
  rewrite bind_get.
  destruct (existsb (String.eqb nm) (net_hosts net ++ net_switches net));
    [auto | discriminate].
Qed.

Lemma bind_poll_loop_Done {B} (s : PollStep) (fuel : nat) (k : unit -> M B)
    (env : Env) (tr : Trace) (x : B) (tr' : Trace) :
  bind (poll_loop s fuel) k env tr = Done x tr' ->
  exists n, n <= fuel /\
    (exists h, contains (marker s) (env (h ++ [poll_event s])) = true) /\
    k tt env (tr ++ step_rounds s n ++ [poll_event s]) = Done x tr'.
Proof.
  unfold bind at 1.
  destruct (poll_loop_cases s fuel env tr) as [[n [Hn [Hlt [Hat Hr]]]] | [_ Hr]];
    rewrite Hr; [|discriminate].
  intros H. exists n. repeat split; auto.
  exists (tr ++ step_rounds s n). unfold observation in Hat.
  rewrite <- app_assoc. exact Hat.
Qed.

Lemma for_each_emits {A} (f : A -> list Event) (body : A -> M unit) (xs : list A) :
  (forall x env tr, body x env tr = Done tt (tr ++ f x)) ->
  forall env tr, for_each xs body env tr = Done tt (tr ++ flat_map f xs).
Proof.
  intros Hb. induction xs as [|x xs IH]; intros env tr; simpl.
  - rewrite app_nil_r. reflexivity.
  - unfold bind. rewrite Hb, IH, <- app_assoc. reflexivity.
Qed.

Lemma teardown_emits (net : Net) (ext_int nat_nfv : string) (env : Env) (tr : Trace) :
  teardown net ext_int nat_nfv env tr
  = Done tt (tr ++ teardown_trace net ext_int nat_nfv).
Proof.
  unfold teardown, teardown_trace, info.
  rewrite !bind_emit.
  unfold bind at 1.
  rewrite (for_each_emits (fun l => [Info "."; LinkStop l]))
    by (intros; rewrite !bind_emit; unfold emit; rewrite <- !app_assoc; reflexivity).
  rewrite !bind_emit.
  unfold bind at 1.
  rewrite (for_each_emits (fun h => [Info (h ++ " "); HostStop h true; HostTerminate h]))
    by (intros; rewrite !bind_emit; unfold emit; rewrite <- !app_assoc; reflexivity).
  rewrite !bind_emit. unfold emit.
  repeat rewrite <- app_assoc. reflexivity.
Qed.

Lemma Done_inj {A} (a b : A) (t t' : Trace) : Done a t = Done b t' -> t = t'.
Proof. intros H. inversion H. reflexivity. Qed.

(** A run that returns has gone through the five loops, each of which saw
    its marker, and has made the calls of [run_trace]. *)
Lemma run_with_Done_inv (net : Net) (ext_int : string) (fuel : nat)
    (env : Env) (tr : Trace) :
  run_with net ext_int fuel env [] = Done tt tr ->
  (forall s, exists h, contains (marker s) (env (h ++ [poll_event s])) = true) /\
  exists k1 k2 k3 k4 k5,
    (k1 <= fuel /\ k2 <= fuel /\ k3 <= fuel /\ k4 <= fuel /\ k5 <= fuel) /\
    tr = run_trace net ext_int k1 k2 k3 k4 k5.
Proof.
  unfold run_with, info, sleep, cmd. intros H.
  rewrite !bind_emit in H.
  apply bind_get_Done in H as [_ H].
  apply bind_get_Done in H as [_ H].
  rewrite !bind_ask in H.
  rewrite !bind_emit in H.
  apply (bind_poll_loop_Done FaucetRunning) in H as [k1 [Hk1 [M1 H]]].
  rewrite !bind_emit in H.
  apply (bind_poll_loop_Done SwitchConnected) in H as [k2 [Hk2 [M2 H]]].
  rewrite !bind_emit in H.
  apply bind_get_Done in H as [_ H].
  apply (bind_poll_loop_Done DnsmasqListening) in H as [k3 [Hk3 [M3 H]]].
  rewrite !bind_emit in H.
  apply bind_get_Done in H as [_ H].
  apply (bind_poll_loop_Done LeaseH1) in H as [k4 [Hk4 [M4 H]]].
  rewrite !bind_emit in H.
  apply bind_get_Done in H as [_ H].
  apply (bind_poll_loop_Done LeaseH2) in H as [k5 [Hk5 [M5 H]]].
  rewrite !bind_emit in H.
  apply bind_get_Done in H as [_ H].
  repeat (rewrite ?bind_emit, ?bind_ask in H).
  rewrite teardown_emits in H.
  apply Done_inj in H.
  subst tr. split.
  - intros []; assumption.
  - exists k1, k2, k3, k4, k5. split; [auto|].
    unfold run_trace, provision_trace, step_trace, prologue, nat_setup_trace.
    repeat (cbn [app]; rewrite <- ?app_assoc).
    reflexivity.
Qed.

Lemma run_with_Done_shape (net : Net) (ext_int : string) (fuel : nat)
    (env : Env) (tr : Trace) :
  run_with net ext_int fuel env [] = Done tt tr ->
  exists k1 k2 k3 k4 k5, tr = run_trace net ext_int k1 k2 k3 k4 k5.
Proof.
  intros H. apply run_with_Done_inv in H as [_ [k1 [k2 [k3 [k4 [k5 [_ H]]]]]]].
  exists k1, k2, k3, k4, k5. exact H.
Qed.

(** * The polling loops *)

(** C4: every polling loop is unbounded. If the marker of a step never
    appears, then for every budget [fuel] the loop of that step has made
    [fuel] failed iterations and is still polling, and no run returns;
    conversely the loop returns at the first poll whose text contains the
    marker, after exactly the failed iterations before it. *)
Theorem polling_loops_unbounded (s : PollStep) (env : Env) :
  (never_shows s env ->
     (forall fuel tr0,
        poll_loop s fuel env tr0
        = Hang (tr0 ++ step_rounds s fuel ++ [poll_event s])) /\
     (forall net ext_int fuel tr,
        run_with net ext_int fuel env [] <> Done tt tr)) /\
  (forall tr0 k fuel,
     k <= fuel ->
     (forall j, j < k -> contains (marker s) (observation s env tr0 j) = false) ->
     contains (marker s) (observation s env tr0 k) = true ->
     poll_loop s fuel env tr0
     = Done tt (tr0 ++ step_rounds s k ++ [poll_event s])).
Proof.
  split.
  - intros Hnever. split.
    + intros fuel tr0. apply poll_loop_hangs.
      intros j _. unfold observation. rewrite app_assoc. apply Hnever.
    + intros net ext_int fuel tr H.
      apply run_with_Done_inv in H as [Hm _].
      destruct (Hm s) as [h Hh]. rewrite Hnever in Hh. discriminate.
  - intros tr0 k fuel. apply poll_loop_exits_at.
Qed.

Lemma polling_loops_unbounded_witness :
  (forall fuel tr0,
     poll_loop FaucetRunning fuel silent_env tr0
     = Hang (tr0 ++ step_rounds FaucetRunning fuel ++ [poll_event FaucetRunning])) /\
  poll_loop LeaseH1 5 (late_env 9) []
  = Done tt ([] ++ step_rounds LeaseH1 2 ++ [poll_event LeaseH1]).
Proof.
  split.
  - destruct (polling_loops_unbounded FaucetRunning silent_env) as [H _].
    apply H. intros h. reflexivity.
  - destruct (polling_loops_unbounded LeaseH1 (late_env 9)) as [_ H].
    apply H.
    + lia.
    + intros j Hj.
      destruct j as [|[|j]]; [reflexivity | reflexivity | lia].
    + reflexivity.
Defined.

(** * Order of the calls *)

Lemma extends_ret {A} (a : A) : extends (ret a).
Proof. intros env tr. exists []. simpl. rewrite app_nil_r. reflexivity. Qed.

Lemma extends_raise {A} (e : string) : extends (@raise A e).
Proof. intros env tr. exists []. simpl. rewrite app_nil_r. reflexivity. Qed.

Lemma extends_emit (e : Event) : extends (emit e).
Proof. intros env tr. exists [e]. reflexivity. Qed.

Lemma extends_ask (e : Event) : extends (ask e).
Proof. intros env tr. exists [e]. reflexivity. Qed.

Lemma extends_bind {A B} (m : M A) (f : A -> M B) :
  extends m -> (forall a, extends (f a)) -> extends (bind m f).
Proof.
  intros Hm Hf env tr. unfold bind.
  destruct (Hm env tr) as [s1 H1].
  destruct (m env tr) as [a tr1 | tr1 | e tr1]; simpl in H1; subst tr1.
  - destruct (Hf a env (tr ++ s1)) as [s2 H2].
    exists (s1 ++ s2). rewrite H2, app_assoc. reflexivity.
  - exists s1. reflexivity.
  - exists s1. reflexivity.
Qed.

Lemma extends_get (net : Net) (nm : string) : extends (get net nm).
Proof.
  unfold get.
  destruct (existsb (String.eqb nm) (net_hosts net ++ net_switches net)).
  - apply extends_ret.
  - apply extends_raise.
Qed.

Lemma extends_while {B} (mk : string) (poll : M string) (body : M B) (fuel : nat) :
  extends poll -> extends body -> extends (while_not_in mk poll body fuel).
Proof.
  intros Hp Hb. induction fuel as [|fuel IH]; intros env tr; simpl.
  - destruct (Hp env tr) as [s1 H1].
    destruct (poll env tr) as [out tr1 | tr1 | e tr1]; simpl in H1; subst tr1;
      [ destruct (contains mk out) | | ]; exists s1; reflexivity.
  - destruct (Hp env tr) as [s1 H1].
    destruct (poll env tr) as [out tr1 | tr1 | e tr1]; simpl in H1; subst tr1;
      [ destruct (contains mk out) | | ]; try (exists s1; reflexivity).
    destruct (Hb env (tr ++ s1)) as [s2 H2].
    destruct (body env (tr ++ s1)) as [x tr2 | tr2 | e tr2]; simpl in H2; subst tr2.
    + destruct (IH env ((tr ++ s1) ++ s2)) as [s3 H3].
      exists (s1 ++ s2 ++ s3). rewrite H3, <- !app_assoc. reflexivity.
    + exists (s1 ++ s2). simpl. rewrite app_assoc. reflexivity.
    + exists (s1 ++ s2). simpl. rewrite app_assoc. reflexivity.
Qed.

Lemma extends_for_each {A B} (xs : list A) (body : A -> M B) :
  (forall x, extends (body x)) -> extends (for_each xs body).
Proof.
  intros Hb. induction xs as [|x xs IH]; simpl.
  - apply extends_ret.
  - apply extends_bind; auto.
Qed.

Create HintDb extends.
#[local] Hint Resolve extends_ret extends_raise extends_emit extends_ask
  extends_get : extends.

(** Proves [extends] for a piece of script written with the combinators. *)
Ltac solve_extends :=
  repeat first
    [ solve [auto with extends]
    | apply extends_bind; [|intros ?]
    | apply extends_while
    | apply extends_for_each; intros ? ].

Lemma extends_wait_faucet (fuel : nat) : extends (wait_faucet fuel).
Proof. unfold wait_faucet, quietRun, sleep, info. solve_extends. Qed.

Lemma extends_wait_connected (fuel : nat) : extends (wait_connected fuel).
Proof. unfold wait_connected, quietRun, sleep, info. solve_extends. Qed.

Lemma extends_wait_dnsmasq (d : string) (fuel : nat) : extends (wait_dnsmasq d fuel).
Proof. unfold wait_dnsmasq, cmd, sleep, info. solve_extends. Qed.

Lemma extends_wait_lease (h : string) (fuel : nat) : extends (wait_lease h fuel).
Proof. unfold wait_lease, cmd, sleep, info. solve_extends. Qed.

Lemma extends_teardown (net : Net) (ext_int nat_nfv : string) :
  extends (teardown net ext_int nat_nfv).
Proof. unfold teardown, info. solve_extends. Qed.

#[local] Hint Resolve extends_wait_faucet extends_wait_connected
  extends_wait_dnsmasq extends_wait_lease extends_teardown : extends.

(** Either a switch is missing and [run] stops before any command, or the
    history starts with the calls of [prologue]. *)
Lemma run_with_prefix (net : Net) (ext_int : string) (fuel : nat) (env : Env) :
  trace_of (run_with net ext_int fuel env []) = firstn 2 prologue \/
  exists suffix, trace_of (run_with net ext_int fuel env []) = prologue ++ suffix.
Proof.
  unfold run_with, info, sleep, cmd.
  rewrite !bind_emit, bind_get.
  destruct (existsb (String.eqb "sw1") (net_hosts net ++ net_switches net));
    [|left; reflexivity].
  rewrite bind_get.
  destruct (existsb (String.eqb "sw2") (net_hosts net ++ net_switches net));
    [|left; reflexivity].
  rewrite !bind_ask. right.
  match goal with
  | |- exists _, trace_of (?m env ?t) = _ =>
      assert (Hext : extends m) by solve_extends;
      destruct (Hext env t) as [suffix Hs]; rewrite Hs
  end.
  exists suffix. reflexivity.
Qed.

(** C7: in every execution of [run], whether it returns, keeps polling or
    raises, a poll of the controller service or of the switch connection
    is preceded by the controller-address assignment on both switches. *)
Theorem controllers_assigned_before_polling
    (net : Net) (ext_int : string) (fuel : nat) (env : Env) (i : nat) :
  let tr := trace_of (run_with net ext_int fuel env []) in
  nth_error tr i = Some (poll_event FaucetRunning) \/
  nth_error tr i = Some (poll_event SwitchConnected) ->
  exists j1 j2,
    j1 < i /\ j2 < i /\
    nth_error tr j1 = Some set_controller_sw1 /\
    nth_error tr j2 = Some set_controller_sw2.
Proof.
  intros tr Hi. subst tr.
  destruct (run_with_prefix net ext_int fuel env) as [E | [suffix E]];
    rewrite E in *.
  - destruct i as [|[|i]]; simpl in Hi;
      try (destruct Hi as [Hi|Hi]; discriminate Hi).
    destruct i; simpl in Hi; destruct Hi as [Hi|Hi]; discriminate Hi.
  - exists 2, 3.
    destruct i as [|[|[|[|i]]]]; simpl in Hi;
      try (destruct Hi as [Hi|Hi]; discriminate Hi).
    repeat split; try lia; reflexivity.
Qed.

Lemma controllers_assigned_before_polling_witness :
  exists j1 j2,
    j1 < 5 /\ j2 < 5 /\
    nth_error (trace_of (run_with (Mininet FaucetTopo) EXT_INT 0 ready_env [])) j1
      = Some set_controller_sw1 /\
    nth_error (trace_of (run_with (Mininet FaucetTopo) EXT_INT 0 ready_env [])) j2
      = Some set_controller_sw2.
Proof.
  apply (controllers_assigned_before_polling
           (Mininet FaucetTopo) EXT_INT 0 ready_env 5).
  left. reflexivity.
Defined.

(** ** Teardown *)

Lemma in_step_rounds_not_teardown (s : PollStep) (k : nat) (e : Event) :
  In e (step_rounds s k) -> is_teardown_call e = false.
Proof.
  intros H. apply in_rounds in H as [H | H]; [subst e; destruct s; reflexivity|].
  destruct s; simpl in H;
    repeat (destruct H as [H | H]; [subst e; reflexivity|]); contradiction.
Qed.

Lemma in_step_trace_not_teardown (s : PollStep) (k : nat) (e : Event) :
  In e (step_trace s k) -> is_teardown_call e = false.
Proof.
  unfold step_trace. intros [H | H]; [subst e; destruct s; reflexivity|].
  apply in_app_iff in H as [H | H].
  - eapply in_step_rounds_not_teardown; eauto.
  - destruct H as [H | [H | []]]; subst e; destruct s; reflexivity.
Qed.

Lemma in_provision_trace_not_teardown (ext_int : string) (k1 k2 k3 k4 k5 : nat)
    (e : Event) :
  In e (provision_trace ext_int k1 k2 k3 k4 k5) -> is_teardown_call e = false.
Proof.
  unfold provision_trace. rewrite !in_app_iff.
  intros [H | [H | [H | [H | [H | [H | H]]]]]];
    try (eapply in_step_trace_not_teardown; eassumption).
  - unfold prologue in H.
    repeat (destruct H as [H | H]; [subst e; reflexivity|]); contradiction.
  - unfold nat_setup_trace in H.
    repeat (destruct H as [H | H]; [subst e; reflexivity|]); contradiction.
Qed.

(** When all [a]s lie in a front part and all [b]s in the rest, every [a]
    precedes every [b]. *)
Lemma before_split (front rest : Trace) (a b : Event) :
  ~ In a rest -> ~ In b front -> before (front ++ rest) a b.
Proof.
  intros Ha Hb i j Hi Hj.
  destruct (Nat.lt_ge_cases i (length front)) as [Hlt | Hge].
  - destruct (Nat.lt_ge_cases j (length front)) as [Hlt' | Hge']; [|lia].
    rewrite nth_error_app1 in Hj by exact Hlt'.
    apply nth_error_In in Hj. contradiction.
  - rewrite nth_error_app2 in Hi by exact Hge.
    apply nth_error_In in Hi. contradiction.
Qed.

Lemma in_link_stops (ls : list Topo.Link) (e : Event) :
  In e (flat_map (fun l => [Info "."; LinkStop l]) ls) ->
  e = Info "." \/ exists l, In l ls /\ e = LinkStop l.
Proof.
  intros H. apply in_flat_map in H as [l [Hl [H | [H | []]]]]; subst e; eauto.
Qed.

Lemma in_host_stops (hs : list string) (e : Event) :
  In e (flat_map (fun h => [Info (h ++ " "); HostStop h true; HostTerminate h]) hs) ->
  exists h, In h hs /\
    (e = Info (h ++ " ") \/ e = HostStop h true \/ e = HostTerminate h).
Proof.
  intros H. apply in_flat_map in H as [h [Hh [H | [H | [H | []]]]]]; subst e; eauto.
Qed.

(** C6: in a run that reaches the teardown, the external interface is
    detached from the NAT node before any link is stopped, every link of the
    network is stopped before any host is stopped or terminated, every host
    is stopped with its interfaces deleted and terminated, and the stop of
    the network is the last call. *)
Theorem teardown_order
    (net : Net) (ext_int : string) (fuel : nat) (env : Env) (tr : Trace) :
  run_with net ext_int fuel env [] = Done tt tr ->
  In (DelIntf "nat" ext_int) tr /\
  (forall l, In l (net_links net) -> In (LinkStop l) tr) /\
  (forall h, In h (net_hosts net) ->
     In (HostStop h true) tr /\ In (HostTerminate h) tr) /\
  (forall l, before tr (DelIntf "nat" ext_int) (LinkStop l)) /\
  (forall l h d,
     before tr (LinkStop l) (HostStop h d) /\
     before tr (LinkStop l) (HostTerminate h)) /\
  (exists front, tr = front ++ [NetStop] /\ ~ In NetStop front).
Proof.
  intros H. apply run_with_Done_shape in H as [k1 [k2 [k3 [k4 [k5 H]]]]].
  subst tr. unfold run_trace, teardown_trace.
  pose proof (in_provision_trace_not_teardown ext_int k1 k2 k3 k4 k5) as HP.
  set (P := provision_trace ext_int k1 k2 k3 k4 k5) in *.
  set (FL := flat_map (fun l => [Info "."; LinkStop l]) (net_links net)).
  set (FH := flat_map (fun h => [Info (h ++ " "); HostStop h true; HostTerminate h])
               (net_hosts net)).
  set (i1 := Info ("*** Stopping " ++ str_of_nat (length (net_links net)) ++ " links:")).
  set (i2 := Info ("*** Stopping " ++ str_of_nat (length (net_hosts net)) ++ " hosts: ")).
  set (i3 := Info ("...done" ++ nl)).
  set (i0 := Info nl).
  assert (HFL : forall e, In e FL -> e = Info "." \/ exists l, e = LinkStop l).
  { intros e He. apply in_link_stops in He as [He | [l [_ He]]]; eauto. }
  assert (HFH : forall e, In e FH ->
            exists h, e = Info (h ++ " ") \/ e = HostStop h true \/ e = HostTerminate h).
  { intros e He. apply in_host_stops in He as [h [_ He]]; eauto. }
  repeat split.
  - apply in_or_app. right. cbn [app In]. auto.
  - intros l Hl. apply in_or_app. right. cbn [app In]. do 3 right.
    apply in_or_app. left. apply in_flat_map. exists l. simpl. auto.
  - apply in_or_app. right. cbn [app In]. do 3 right.
    apply in_or_app. right. cbn [app In]. do 2 right.
    apply in_or_app. left. apply in_flat_map. exists h. simpl. auto.
  - apply in_or_app. right. cbn [app In]. do 3 right.
    apply in_or_app. right. cbn [app In]. do 2 right.
    apply in_or_app. left. apply in_flat_map. exists h. simpl. auto.
  - intros l.
    replace (P ++ RunCLI :: [DelIntf "nat" ext_int; i1] ++ FL ++ [i0; i2] ++ FH ++ [i3; NetStop])
      with ((P ++ [RunCLI; DelIntf "nat" ext_int; i1]) ++ (FL ++ [i0; i2] ++ FH ++ [i3; NetStop]))
      by (rewrite <- app_assoc; reflexivity).
    apply before_split.
    + rewrite !in_app_iff. intros [He | [He | [He | He]]].
      * apply HFL in He as [He | [l' He]]; discriminate He.
      * destruct He as [He | [He | []]]; discriminate He.
      * apply HFH in He as [h' [He | [He | He]]]; discriminate He.
      * destruct He as [He | [He | []]]; discriminate He.
    + rewrite in_app_iff. intros [He | He].
      * apply HP in He. discriminate He.
      * destruct He as [He | [He | [He | []]]]; discriminate He.
  - replace (P ++ RunCLI :: [DelIntf "nat" ext_int; i1] ++ FL ++ [i0; i2] ++ FH ++ [i3; NetStop])
      with ((P ++ [RunCLI; DelIntf "nat" ext_int; i1] ++ FL) ++ ([i0; i2] ++ FH ++ [i3; NetStop]))
      by (rewrite <- !app_assoc; reflexivity).
    apply before_split.
    + rewrite !in_app_iff. intros [He | [He | He]].
      * destruct He as [He | [He | []]]; discriminate He.
      * apply HFH in He as [h' [He | [He | He]]]; discriminate He.
      * destruct He as [He | [He | []]]; discriminate He.
    + rewrite !in_app_iff. intros [He | [He | He]].
      * apply HP in He. discriminate He.
      * destruct He as [He | [He | [He | []]]]; discriminate He.
      * apply HFL in He as [He | [l' He]]; discriminate He.
  - replace (P ++ RunCLI :: [DelIntf "nat" ext_int; i1] ++ FL ++ [i0; i2] ++ FH ++ [i3; NetStop])
      with ((P ++ [RunCLI; DelIntf "nat" ext_int; i1] ++ FL) ++ ([i0; i2] ++ FH ++ [i3; NetStop]))
      by (rewrite <- !app_assoc; reflexivity).
    apply before_split.
    + rewrite !in_app_iff. intros [He | [He | He]].
      * destruct He as [He | [He | []]]; discriminate He.
      * apply HFH in He as [h' [He | [He | He]]]; discriminate He.
      * destruct He as [He | [He | []]]; discriminate He.
    + rewrite !in_app_iff. intros [He | [He | He]].
      * apply HP in He. discriminate He.
      * destruct He as [He | [He | [He | []]]]; discriminate He.
      * apply HFL in He as [He | [l' He]]; discriminate He.
  - exists (P ++ [RunCLI; DelIntf "nat" ext_int; i1] ++ FL ++ [i0; i2] ++ FH ++ [i3]).
    split.
    + repeat (cbn [app]; rewrite <- ?app_assoc). reflexivity.
    + rewrite !in_app_iff. intros [He | [He | [He | [He | [He | He]]]]].
      * apply HP in He. discriminate He.
      * destruct He as [He | [He | [He | []]]]; discriminate He.
      * apply HFL in He as [He | [l' He]]; discriminate He.
      * destruct He as [He | [He | []]]; discriminate He.
      * apply HFH in He as [h' [He | [He | He]]]; discriminate He.
      * destruct He as [He | []]; discriminate He.
Qed.

(** With every marker present at once, [run] returns for any budget, having
    made the calls of [run_trace] with no failed poll. *)
Lemma run_returns_when_ready (fuel : nat) :
  run fuel ready_env
  = Done tt (run_trace (Mininet FaucetTopo) EXT_INT 0 0 0 0 0).
Proof. destruct fuel; vm_compute; reflexivity. Qed.

Lemma teardown_order_witness :
  exists front,
    run_trace (Mininet FaucetTopo) EXT_INT 0 0 0 0 0 = front ++ [NetStop] /\
    ~ In NetStop front.
Proof.
  destruct (teardown_order (Mininet FaucetTopo) EXT_INT 0 ready_env
              (run_trace (Mininet FaucetTopo) EXT_INT 0 0 0 0 0))
    as [_ [_ [_ [_ [_ H]]]]].
  - vm_compute. reflexivity.
  - exact H.
Defined.

(** ** The external interface *)

Lemma in_step_trace_not_dhclient (s : PollStep) (k : nat) (intf : string) :
  ~ In (dhclient_on intf) (step_trace s k).
Proof.
  unfold step_trace, dhclient_on. intros [H | H]; [destruct s; discriminate H|].
  apply in_app_iff in H as [H | H].
  - apply in_rounds in H as [H | H]; [destruct s; discriminate H|].
    destruct s; simpl in H;
      repeat (destruct H as [H | H]; [discriminate H|]); contradiction.
  - destruct H as [H | [H | []]]; destruct s; discriminate H.
Qed.

(** C5, as the code has it: whatever the value of the constant, the DHCP
    request that follows the attachment of the external interface names
    [enp0s9]; when the constant differs from [enp0s9], no request is made
    on the interface that was attached. *)
Theorem dhclient_interface_is_fixed
    (net : Net) (ext_int : string) (fuel : nat) (env : Env) (tr : Trace) :
  run_with net ext_int fuel env [] = Done tt tr ->
  (exists pre post,
     tr = pre ++ [AttachIntf ext_int "nat"; Sleep 1; dhclient_on "enp0s9"] ++ post) /\
  (ext_int <> "enp0s9" -> ~ In (dhclient_on ext_int) tr).
Proof.
  intros H. apply run_with_Done_shape in H as [k1 [k2 [k3 [k4 [k5 H]]]]].
  subst tr. split.
  - exists (prologue ++ step_trace FaucetRunning k1 ++ step_trace SwitchConnected k2
            ++ step_trace DnsmasqListening k3 ++ step_trace LeaseH1 k4
            ++ step_trace LeaseH2 k5
            ++ [Info "*** Moving bridged interface into the NAT NFV.."]).
    eexists.
    unfold run_trace, provision_trace, nat_setup_trace, dhclient_on.
    repeat (cbn [app]; rewrite <- ?app_assoc).
    reflexivity.
  - intros Hne. unfold run_trace, provision_trace.
    rewrite !in_app_iff.
    intros [[H | [H | [H | [H | [H | [H | H]]]]]] | H];
      try (eapply in_step_trace_not_dhclient; eassumption).
    + unfold prologue, dhclient_on in H.
      repeat (destruct H as [H | H]; [discriminate H|]); contradiction.
    + unfold nat_setup_trace, dhclient_on in H.
      destruct H as [H | H]; [discriminate H|].
      destruct H as [H | H]; [discriminate H|].
      destruct H as [H | H]; [discriminate H|].
      destruct H as [H | H].
      { apply Hne. simpl in H. injection H as H. symmetry. exact H. }
      repeat (destruct H as [H | H]; [simpl in H; discriminate H|]); contradiction.
    + destruct H as [H | H]; [discriminate H|].
      unfold teardown_trace in H. rewrite !in_app_iff in H.
      destruct H as [H | [H | [H | [H | H]]]].
      * destruct H as [H | [H | []]]; discriminate H.
      * apply in_link_stops in H as [H | [l [_ H]]]; discriminate H.
      * destruct H as [H | [H | []]]; discriminate H.
      * apply in_host_stops in H as [h [_ [H | [H | H]]]]; discriminate H.
      * destruct H as [H | [H | []]]; discriminate H.
Qed.

Lemma dhclient_interface_is_fixed_witness :
  ~ In (dhclient_on "eth1") (run_trace (Mininet FaucetTopo) "eth1" 0 0 0 0 0).
Proof.
  destruct (dhclient_interface_is_fixed (Mininet FaucetTopo) "eth1" 0 ready_env
              (run_trace (Mininet FaucetTopo) "eth1" 0 0 0 0 0)) as [_ H].
  - vm_compute. reflexivity.
  - apply H. discriminate.
Defined.

(** ** Retrying *)

Lemma body_events_retry (s : PollStep) :
  body_events s = [Sleep (interval s); Info "."] ++ retry s.
Proof. destruct s; reflexivity. Qed.

(** C2, as stated, fails for the connection wait: with a first poll that
    does not show [is_connected] and a second that does, the loop makes
    the calls poll, sleep, log, poll, and no command lies between the two
    polls. *)
Lemma connection_wait_reissues_nothing :
  poll_loop SwitchConnected 1 (late_env 2) []
  = Done tt [QuietRun "ovs-vsctl show"; Sleep 1; Info "."; QuietRun "ovs-vsctl show"] /\
  ~ reissues_between_polls SwitchConnected.
Proof.
  split; [reflexivity|].
  intros H.
  specialize (H (late_env 2) [] [Sleep 1; Info "."] eq_refl eq_refl).
  discriminate H.
Qed.

Lemma iteration_is_poll_and_body (s : PollStep) :
  poll_event s :: body_events s = iteration s.
Proof. destruct s; reflexivity. Qed.

(** C2, amended: when a poll does not show the marker, the loop's history
    goes on with the sleep, the logged dot, the step's retry command and
    the next poll. In full, the history of the loop is a number of failed
    iterations, each of them a poll that does not show the marker followed
    by the sleep, the dot and the retry, and then one more poll. The retry
    is one command for the controller-service check, the DHCP-server check
    and the two lease waits, and nothing for the connection wait. *)
Theorem unmet_iteration_retries
    (s : PollStep) (fuel : nat) (env : Env) (tr0 : Trace) :
  contains (marker s) (env (tr0 ++ [poll_event s])) = false ->
  (exists k,
     1 <= k <= S fuel /\
     (forall j, j < k ->
        contains (marker s)
          (env (tr0 ++ concat (repeat (iteration s) j) ++ [poll_event s])) = false) /\
     trace_of (poll_loop s (S fuel) env tr0)
     = tr0 ++ concat (repeat (iteration s) k) ++ [poll_event s]) /\
  poll_loop s (S fuel) env tr0
  = poll_loop s fuel env
      (tr0 ++ [poll_event s; Sleep (interval s); Info "."] ++ retry s) /\
  (s <> SwitchConnected ->
     exists act, retry s = [act] /\ is_command act = true) /\
  (s = SwitchConnected -> retry s = []).
Proof.
  intros H. split; [|split; [|split]].
  - destruct (poll_loop_cases s (S fuel) env tr0)
      as [[k [Hk [Hlt [Hat Hr]]]] | [Hall Hr]];
      rewrite Hr; cbn [trace_of];
      unfold observation, step_rounds, rounds in *;
      rewrite iteration_is_poll_and_body in *.
    + exists k. repeat split; auto.
      destruct k as [|k]; [|lia].
      simpl in Hat. rewrite H in Hat. discriminate Hat.
    + exists (S fuel). repeat split; auto; try lia.
      intros j Hj. apply Hall. lia.
  - rewrite poll_loop_unmet by exact H.
    rewrite body_events_retry. reflexivity.
  - intros Hs. destruct s; try contradiction; eexists; split; reflexivity.
  - intros Hs. subst s. reflexivity.
Qed.

Lemma unmet_iteration_retries_witness :
  exists k,
    1 <= k <= 3 /\
    (forall j, j < k ->
       contains "(running)"
         (late_env 9 ([] ++ concat (repeat (iteration FaucetRunning) j)
                         ++ [poll_event FaucetRunning])) = false) /\
    trace_of (poll_loop FaucetRunning 3 (late_env 9) [])
    = [] ++ concat (repeat (iteration FaucetRunning) k)
         ++ [poll_event FaucetRunning].
Proof.
  destruct (unmet_iteration_retries FaucetRunning 2 (late_env 9) []) as [H _].
  - reflexivity.
  - exact H.
Defined.

(** ** The lease waits *)

(** C1, as stated, fails: a host whose address is 210.0.0.7, outside
    10.0.0.0/24, makes the pipeline print [10.0.0.7], and both lease loops
    return at that poll. *)
Lemma lease_wait_exits_on_unrelated_address :
  in_subnet_10_0_0 (ipv4 210 0 0 7) = false /\
  lease_check_output (ipv4 210 0 0 7) = ("10.0.0.7" ++ nl)%string /\
  contains "10.0.0" (dotted (ipv4 210 0 0 7)) = true /\
  ~ exits_only_in_subnet LeaseH1 /\
  ~ exits_only_in_subnet LeaseH2.
Proof.
  repeat split.
  - intros H.
    apply (H (ipv4 210 0 0 7) 0 (fun _ => lease_check_output (ipv4 210 0 0 7)) []);
      reflexivity.
  - intros H.
    apply (H (ipv4 210 0 0 7) 0 (fun _ => lease_check_output (ipv4 210 0 0 7)) []);
      reflexivity.
Qed.

Lemma step_rounds_length_S (s : PollStep) (k : nat) :
  1 < length (step_rounds s (S k) ++ [poll_event s]).
Proof.
  unfold step_rounds. rewrite rounds_S. simpl.
  rewrite !length_app. simpl. lia.
Qed.

(** C1, amended: each lease loop returns only at a poll whose text
    contains [10.0.0]; at a poll whose text does not contain it the loop
    does not return. *)
Theorem lease_wait_exits_on_marker_text
    (s : PollStep) (fuel : nat) (env : Env) (tr0 : Trace) :
  s = LeaseH1 \/ s = LeaseH2 ->
  (forall tr',
     poll_loop s fuel env tr0 = Done tt tr' ->
     (exists k, k <= fuel /\ tr' = tr0 ++ step_rounds s k ++ [poll_event s]) /\
     contains "10.0.0" (env tr') = true) /\
  (contains "10.0.0" (env (tr0 ++ [poll_event s])) = false ->
   poll_loop s fuel env tr0 <> Done tt (tr0 ++ [poll_event s])).
Proof.
  intros Hs.
  assert (Hm : marker s = "10.0.0") by (destruct Hs; subst s; reflexivity).
  destruct (poll_loop_cases s fuel env tr0)
    as [[k [Hk [Hlt [Hat Hr]]]] | [Hall Hr]]; rewrite Hr, Hm in *.
  - split.
    + intros tr' E. apply Done_inj in E. subst tr'. split.
      * exists k. auto.
      * exact Hat.
    + intros Hno E. apply Done_inj in E.
      apply app_inv_head in E.
      destruct k as [|k].
      * unfold observation, step_rounds, rounds in Hat. simpl in Hat.
        rewrite Hno in Hat. discriminate Hat.
      * pose proof (step_rounds_length_S s k) as Hl.
        rewrite E in Hl. simpl in Hl. lia.
  - split.
    + intros tr' E. discriminate E.
    + intros _ E. discriminate E.
Qed.

Lemma lease_wait_exits_on_marker_text_witness :
  contains "10.0.0"
    (late_env 9 ([] ++ step_rounds LeaseH1 2 ++ [poll_event LeaseH1])) = true /\
  poll_loop LeaseH2 3 silent_env [] <> Done tt ([] ++ [poll_event LeaseH2]).
Proof.
  split.
  - destruct (lease_wait_exits_on_marker_text LeaseH1 5 (late_env 9) [])
      as [H _]; [left; reflexivity|].
    apply H. reflexivity.
  - destruct (lease_wait_exits_on_marker_text LeaseH2 3 silent_env [])
      as [_ H]; [right; reflexivity|].
    apply H. reflexivity.
Defined.

(** For comparison, every address of 10.0.0.0/24 does end the wait: the
    pipeline prints the prefix followed by the first digit of the last
    octet. *)
Lemma lease_wait_exits_in_subnet (d : nat) :
  d < 256 ->
  contains "10.0.0" (lease_check_output (ipv4 10 0 0 d)) = true.
Proof.
  intros Hd.
  assert (Hall : forallb
            (fun d => contains "10.0.0" (lease_check_output (ipv4 10 0 0 d)))
            (seq 0 256) = true) by (vm_compute; reflexivity).
  rewrite forallb_forall in Hall. apply Hall.
  apply in_seq. lia.
Qed.

(** * All the behaviours of [run] *)

Lemma is_prefix_nil (full : Trace) : is_prefix [] full.
Proof. exists full. reflexivity. Qed.

Lemma is_prefix_cons (e : Event) (t full : Trace) :
  is_prefix t full -> is_prefix (e :: t) (e :: full).
Proof. intros [s H]. exists s. rewrite H. reflexivity. Qed.

Lemma is_prefix_app (a t full : Trace) :
  is_prefix t full -> is_prefix (a ++ t) (a ++ full).
Proof. intros [s H]. exists s. rewrite H, app_assoc. reflexivity. Qed.

Lemma bind_get_has {B} (net : Net) (nm : string) (k : string -> M B)
    (env : Env) (tr : Trace) :
  bind (get net nm) k env tr
  = if has_node net nm then k nm env tr else Raised "KeyError" tr.
Proof. apply bind_get. Qed.

Lemma bind_poll_loop_cases {B} (s : PollStep) (fuel : nat) (k : unit -> M B)
    (env : Env) (tr : Trace) :
  (exists n, n <= fuel /\
     bind (poll_loop s fuel) k env tr
     = k tt env (tr ++ step_rounds s n ++ [poll_event s])) \/
  ((forall j, j <= fuel -> contains (marker s) (observation s env tr j) = false) /\
   bind (poll_loop s fuel) k env tr
   = Hang (tr ++ step_rounds s fuel ++ [poll_event s])).
Proof.
  unfold bind.
  destruct (poll_loop_cases s fuel env tr) as [[n [Hn [_ [_ Hr]]]] | [Hall Hr]];
    rewrite Hr.
  - left. exists n. split; [exact Hn | reflexivity].
  - right. split; [exact Hall | reflexivity].
Qed.

(** Shows that a history has the form of an initial part of
    [provision_trace], comparing call by call. *)
Ltac is_stopped_early k1 k2 k3 k4 k5 :=
  exists k1, k2, k3, k4, k5; split; [repeat split; (assumption || lia)|];
  cbn [trace_of];
  unfold provision_trace, step_trace, prologue, nat_setup_trace;
  repeat (cbn [app]; rewrite <- ?app_assoc);
  repeat first [ apply is_prefix_cons | apply is_prefix_app ];
  apply is_prefix_nil.

(** Closes the case of a lookup that raises. *)
Ltac raises_here nm k1 k2 k3 k4 k5 :=
  right; right; exists nm; eexists; split; [reflexivity|];
  split; [simpl; tauto|]; split; [assumption|];
  is_stopped_early k1 k2 k3 k4 k5.

(** Closes the case of a loop that uses up the budget. *)
Ltac hangs_here s H k1 k2 k3 k4 k5 :=
  right; left; exists s; eexists; split; [reflexivity|];
  split; [exact H|]; is_stopped_early k1 k2 k3 k4 k5.

(** Runs the loop of step [s] at the head of the script. *)
Ltac through_loop s f n Hn Hall :=
  match goal with
  | |- context [bind ?m ?k ?env ?t] =>
      let C := fresh "C" in
      let E := fresh "E" in
      pose proof (bind_poll_loop_cases s f k env t) as C;
      cbn [poll_loop] in C;
      destruct C as [[n [Hn E]] | [Hall E]]; rewrite E; clear E
  end.

(** Looks a node up at the head of the script. *)
Ltac through_get H :=
  rewrite bind_get_has;
  match goal with
  | |- context [if has_node ?net ?nm then _ else _] =>
      destruct (has_node net nm) eqn:H
  end.

Lemma run_with_outcomes (net : Net) (ext_int : string) (fuel : nat) (env : Env) :
  run_outcome net ext_int fuel env (run_with net ext_int fuel env []).
Proof.
  unfold run_outcome, run_with, info, sleep, cmd.
  rewrite !bind_emit.
  through_get N1; [|raises_here "sw1" 0 0 0 0 0].
  through_get N2; [|raises_here "sw2" 0 0 0 0 0].
  rewrite !bind_ask, !bind_emit.
  through_loop FaucetRunning fuel k1 Hk1 A1; [|hangs_here FaucetRunning A1 fuel 0 0 0 0].
  rewrite !bind_emit.
  through_loop SwitchConnected fuel k2 Hk2 A2; [|hangs_here SwitchConnected A2 k1 fuel 0 0 0].
  rewrite !bind_emit.
  through_get N3; [|raises_here "dhcp" k1 k2 0 0 0].
  through_loop DnsmasqListening fuel k3 Hk3 A3; [|hangs_here DnsmasqListening A3 k1 k2 fuel 0 0].
  rewrite !bind_emit.
  through_get N4; [|raises_here "h1" k1 k2 k3 0 0].
  through_loop LeaseH1 fuel k4 Hk4 A4; [|hangs_here LeaseH1 A4 k1 k2 k3 fuel 0].
  rewrite !bind_emit.
  through_get N5; [|raises_here "h2" k1 k2 k3 k4 0].
  through_loop LeaseH2 fuel k5 Hk5 A5; [|hangs_here LeaseH2 A5 k1 k2 k3 k4 fuel].
  rewrite !bind_emit.
  through_get N6; [|raises_here "nat" k1 k2 k3 k4 k5].
  repeat (rewrite ?bind_emit, ?bind_ask).
  rewrite teardown_emits.
  left. split.
  - unfold has_nodes, looked_up. simpl forallb.
    rewrite N1, N2, N3, N4, N5, N6. reflexivity.
  - exists k1, k2, k3, k4, k5. split; [auto|].
    unfold run_trace, provision_trace, step_trace, prologue, nat_setup_trace.
    repeat (cbn [app]; rewrite <- ?app_assoc).
    reflexivity.
Qed.

(** ** Returning, hanging and raising *)

Lemma has_nodes_has_node (net : Net) (nm : string) :
  has_nodes net = true -> In nm looked_up -> has_node net nm = true.
Proof.
  unfold has_nodes. rewrite forallb_forall. auto.
Qed.

(** With all six nodes present and every marker showing within the budget,
    [run] returns, having made the calls of [run_trace]. *)
Theorem run_returns (net : Net) (ext_int : string) (fuel : nat) (env : Env) :
  has_nodes net = true ->
  shows_within fuel env ->
  exists k1 k2 k3 k4 k5,
    (k1 <= fuel /\ k2 <= fuel /\ k3 <= fuel /\ k4 <= fuel /\ k5 <= fuel) /\
    run_with net ext_int fuel env [] = Done tt (run_trace net ext_int k1 k2 k3 k4 k5).
Proof.
  intros Hn Hs.
  destruct (run_with_outcomes net ext_int fuel env)
    as [[_ H] | [[s [tr0 [_ [Hall _]]]] | [nm [t [_ [Hin [Hno _]]]]]]].
  - exact H.
  - destruct (Hs s tr0) as [k [Hk Hshow]].
    rewrite Hall in Hshow by exact Hk. discriminate Hshow.
  - rewrite (has_nodes_has_node net nm Hn Hin) in Hno. discriminate Hno.
Qed.

Lemma late_env_shows_within : shows_within 2 (late_env 5).
Proof.
  intros s tr0. exists 2. split; [lia|].
  unfold observation, late_env.
  assert (Hlen : 5 <= length (tr0 ++ step_rounds s 2 ++ [poll_event s])).
  { rewrite !length_app. destruct s; simpl; lia. }
  apply Nat.ltb_ge in Hlen. rewrite Hlen.
  destruct s; reflexivity.
Qed.

Lemma run_returns_witness :
  exists k1 k2 k3 k4 k5,
    (k1 <= 2 /\ k2 <= 2 /\ k3 <= 2 /\ k4 <= 2 /\ k5 <= 2) /\
    run_with (Mininet FaucetTopo) EXT_INT 2 (late_env 5) []
    = Done tt (run_trace (Mininet FaucetTopo) EXT_INT k1 k2 k3 k4 k5).
Proof.
  apply (run_returns (Mininet FaucetTopo) EXT_INT 2 (late_env 5)).
  - reflexivity.
  - exact late_env_shows_within.
Defined.

(** [run] returns only on a network that has the six nodes it looks up. *)
Theorem run_returns_only_with_all_nodes
    (net : Net) (ext_int : string) (fuel : nat) (env : Env) (tr : Trace) :
  run_with net ext_int fuel env [] = Done tt tr ->
  forall nm, In nm looked_up -> has_node net nm = true.
Proof.
  intros E nm Hin.
  destruct (run_with_outcomes net ext_int fuel env)
    as [[Hn _] | [[s [tr0 [H _]]] | [nm' [t' [H _]]]]];
    try (rewrite E in H; discriminate H).
  apply has_nodes_has_node; assumption.
Qed.

Lemma run_returns_only_with_all_nodes_witness :
  has_node (Mininet FaucetTopo) "dhcp" = true.
Proof.
  apply (run_returns_only_with_all_nodes (Mininet FaucetTopo) EXT_INT 0 ready_env
           (run_trace (Mininet FaucetTopo) EXT_INT 0 0 0 0 0)).
  - vm_compute. reflexivity.
  - simpl. tauto.
Defined.



(** ** A network that is already up *)

Lemma bind_poll_loop_exit {B} (s : PollStep) (fuel : nat) (k : unit -> M B)
    (env : Env) (tr : Trace) :
  contains (marker s) (env (tr ++ [poll_event s])) = true ->
  bind (poll_loop s fuel) k env tr = k tt env (tr ++ [poll_event s]).
Proof.
  intros H. unfold bind. rewrite poll_loop_exit by exact H. reflexivity.
Qed.

(** Passes the loop of step [s] at the head of the script, its first poll
    showing the marker. *)
Ltac pass_loop s f Hshow :=
  match goal with
  | |- context [bind ?m ?k ?env ?t] =>
      let E := fresh "E" in
      pose proof (bind_poll_loop_exit s f k env t (Hshow s t)) as E;
      cbn [poll_loop] in E; rewrite E; clear E
  end.

(** When the controller service already runs, the switches are connected,
    the DHCP server listens and both hosts hold a lease, [run] polls each
    condition once and goes on: whatever the budget, it returns with no
    failed poll. *)
Theorem run_without_waiting
    (net : Net) (ext_int : string) (fuel : nat) (env : Env) :
  has_nodes net = true ->
  always_shows env ->
  run_with net ext_int fuel env [] = Done tt (run_trace net ext_int 0 0 0 0 0).
Proof.
  intros Hn Hs.
  assert (N : forall nm, In nm looked_up -> has_node net nm = true)
    by (intros nm; apply has_nodes_has_node; exact Hn).
  unfold run_with, info, sleep, cmd.
  rewrite !bind_emit.
  rewrite bind_get_has, (N "sw1") by (simpl; tauto).
  rewrite bind_get_has, (N "sw2") by (simpl; tauto).
  rewrite !bind_ask, !bind_emit.
  pass_loop FaucetRunning fuel Hs. rewrite !bind_emit.
  pass_loop SwitchConnected fuel Hs. rewrite !bind_emit.
  rewrite bind_get_has, (N "dhcp") by (simpl; tauto).
  pass_loop DnsmasqListening fuel Hs. rewrite !bind_emit.
  rewrite bind_get_has, (N "h1") by (simpl; tauto).
  pass_loop LeaseH1 fuel Hs. rewrite !bind_emit.
  rewrite bind_get_has, (N "h2") by (simpl; tauto).
  pass_loop LeaseH2 fuel Hs. rewrite !bind_emit.
  rewrite bind_get_has, (N "nat") by (simpl; tauto).
  repeat (rewrite ?bind_emit, ?bind_ask).
  rewrite teardown_emits.
  unfold run_trace, provision_trace, step_trace, prologue, nat_setup_trace.
  repeat (cbn [app]; rewrite <- ?app_assoc).
  reflexivity.
Qed.

Lemma run_without_waiting_witness :
  run_with (Mininet FaucetTopo) EXT_INT 7 ready_env []
  = Done tt (run_trace (Mininet FaucetTopo) EXT_INT 0 0 0 0 0).
Proof.
  apply (run_without_waiting (Mininet FaucetTopo) EXT_INT 7 ready_env).
  - reflexivity.
  - intros s h. destruct s; reflexivity.
Defined.

(** ** What happens only in a run that returns *)






(** ** The steps follow one another *)

Lemma before_prefix (t full : Trace) (a b : Event) :
  is_prefix t full -> before full a b -> before t a b.
Proof.
  intros [suffix E] H i j Hi Hj. subst full.
  apply H; rewrite nth_error_app1; auto;
    apply nth_error_Some; congruence.
Qed.

Lemma before_app_tail (t tail : Trace) (a b : Event) :
  before t a b -> ~ In a tail -> ~ In b tail -> before (t ++ tail) a b.
Proof.
  intros H Ha Hb i j Hi Hj.
  destruct (Nat.lt_ge_cases i (length t)) as [Hlt | Hge].
  - destruct (Nat.lt_ge_cases j (length t)) as [Hlt' | Hge'].
    + rewrite nth_error_app1 in Hi, Hj by assumption. eauto.
    + rewrite nth_error_app2 in Hj by exact Hge'.
      apply nth_error_In in Hj. contradiction.
  - rewrite nth_error_app2 in Hi by exact Hge.
    apply nth_error_In in Hi. contradiction.
Qed.

(** A command of one step occurs in the calls of no other step. *)
Lemma step_call_in_step_trace (s s' : PollStep) (k : nat) (a : Event) :
  step_call s a -> In a (step_trace s' k) -> s = s'.
Proof.
  intros Hc Hin.
  assert (Ha : a = poll_event s' \/ In a (body_events s') \/
               a = banner s' \/ a = done_msg s').
  { unfold step_trace in Hin. destruct Hin as [H | H]; [auto|].
    apply in_app_iff in H as [H | H].
    - apply in_rounds in H as [H | H]; auto.
    - destruct H as [H | [H | []]]; auto. }
  destruct Hc as [Hc | Hc].
  - subst a.
    destruct Ha as [H | [H | [H | H]]];
      destruct s, s'; try reflexivity; simpl in H;
      try discriminate H;
      repeat (destruct H as [H | H]; [discriminate H|]); contradiction.
  - destruct s; simpl in Hc; try contradiction;
      destruct Hc as [Hc | []]; subst a;
      destruct Ha as [H | [H | [H | H]]];
      destruct s'; try reflexivity; simpl in H;
      try discriminate H;
      repeat (destruct H as [H | H]; [discriminate H|]); contradiction.
Qed.

Lemma step_call_not_in_prologue (s : PollStep) (a : Event) :
  step_call s a -> ~ In a prologue.
Proof.
  intros [Hc | Hc] H.
  - subst a. unfold prologue in H.
    destruct s; simpl in H;
      repeat (destruct H as [H | H]; [discriminate H|]); contradiction.
  - unfold prologue in H.
    destruct s; simpl in Hc; try contradiction;
      destruct Hc as [Hc | []]; subst a; simpl in H;
      repeat (destruct H as [H | H]; [discriminate H|]); contradiction.
Qed.

Lemma step_call_not_in_nat_setup (s : PollStep) (ext_int : string) (a : Event) :
  step_call s a -> ~ In a (nat_setup_trace ext_int).
Proof.
  intros [Hc | Hc] H.
  - subst a. unfold nat_setup_trace in H.
    destruct s; simpl in H;
      repeat (destruct H as [H | H]; [discriminate H|]); contradiction.
  - unfold nat_setup_trace in H.
    destruct s; simpl in Hc; try contradiction;
      destruct Hc as [Hc | []]; subst a; simpl in H;
      repeat (destruct H as [H | H]; [discriminate H|]); contradiction.
Qed.

Lemma step_call_not_late (s : PollStep) (a : Event) :
  step_call s a -> is_late_call a = false.
Proof.
  intros [Hc | Hc].
  - subst a. destruct s; reflexivity.
  - destruct s; simpl in Hc; try contradiction;
      destruct Hc as [Hc | []]; subst a; reflexivity.
Qed.

(** Decides a membership in a run of segments, each excluded by one of the
    lemmas above. *)
Ltac not_in_segments :=
  rewrite !in_app_iff; intros H;
  repeat match type of H with
         | _ \/ _ => destruct H as [H | H]
         end;
  first
    [ eapply step_call_not_in_prologue; [|exact H]; eassumption
    | eapply step_call_not_in_nat_setup; [|exact H]; eassumption
    | match goal with
      | Hc : step_call _ _ |- _ =>
          pose proof (step_call_in_step_trace _ _ _ _ Hc H) as E; discriminate E
      end ].

Lemma before_in_provision_trace (ext_int : string) (k1 k2 k3 k4 k5 : nat)
    (s1 s2 : PollStep) (a b : Event) :
  step_index s1 < step_index s2 ->
  step_call s1 a ->
  step_call s2 b ->
  before (provision_trace ext_int k1 k2 k3 k4 k5) a b.
Proof.
  intros Hlt Ha Hb.
  unfold provision_trace.
  set (P := prologue). set (Z := nat_setup_trace ext_int).
  set (S1 := step_trace FaucetRunning k1).
  set (S2 := step_trace SwitchConnected k2).
  set (S3 := step_trace DnsmasqListening k3).
  set (S4 := step_trace LeaseH1 k4).
  set (S5 := step_trace LeaseH2 k5).
  destruct s2; simpl in Hlt.
  - lia.
  - replace (P ++ S1 ++ S2 ++ S3 ++ S4 ++ S5 ++ Z)
      with ((P ++ S1) ++ (S2 ++ S3 ++ S4 ++ S5 ++ Z))
      by (rewrite <- !app_assoc; reflexivity).
    destruct s1; simpl in Hlt; try lia;
      apply before_split; subst P Z S1 S2 S3 S4 S5; not_in_segments.
  - replace (P ++ S1 ++ S2 ++ S3 ++ S4 ++ S5 ++ Z)
      with ((P ++ S1 ++ S2) ++ (S3 ++ S4 ++ S5 ++ Z))
      by (rewrite <- !app_assoc; reflexivity).
    destruct s1; simpl in Hlt; try lia;
      apply before_split; subst P Z S1 S2 S3 S4 S5; not_in_segments.
  - replace (P ++ S1 ++ S2 ++ S3 ++ S4 ++ S5 ++ Z)
      with ((P ++ S1 ++ S2 ++ S3) ++ (S4 ++ S5 ++ Z))
      by (rewrite <- !app_assoc; reflexivity).
    destruct s1; simpl in Hlt; try lia;
      apply before_split; subst P Z S1 S2 S3 S4 S5; not_in_segments.
  - replace (P ++ S1 ++ S2 ++ S3 ++ S4 ++ S5 ++ Z)
      with ((P ++ S1 ++ S2 ++ S3 ++ S4) ++ (S5 ++ Z))
      by (rewrite <- !app_assoc; reflexivity).
    destruct s1; simpl in Hlt; try lia;
      apply before_split; subst P Z S1 S2 S3 S4 S5; not_in_segments.
Qed.

Lemma step_call_is_command (s : PollStep) (a : Event) :
  step_call s a -> is_command a = true.
Proof.
  intros [Hc | Hc].
  - subst a. destruct s; reflexivity.
  - destruct s; simpl in Hc; try contradiction;
      destruct Hc as [Hc | []]; subst a; reflexivity.
Qed.

Lemma in_teardown_trace_not_command (net : Net) (ext_int nat_nfv : string)
    (e : Event) :
  In e (RunCLI :: teardown_trace net ext_int nat_nfv) -> is_command e = false.
Proof.
  intros [H | H]; [subst e; reflexivity|].
  unfold teardown_trace in H. rewrite !in_app_iff in H.
  destruct H as [H | [H | [H | [H | H]]]].
  - destruct H as [H | [H | []]]; subst e; reflexivity.
  - apply in_link_stops in H as [H | [l [_ H]]]; subst e; reflexivity.
  - destruct H as [H | [H | []]]; subst e; reflexivity.
  - apply in_host_stops in H as [h [_ [H | [H | H]]]]; subst e; reflexivity.
  - destruct H as [H | [H | []]]; subst e; reflexivity.
Qed.

(** In every execution, whether it returns, keeps polling or raises, the
    polls and retries of a step all come before the polls and retries of
    the steps after it: the waits are strictly sequential. *)
Theorem steps_in_order
    (net : Net) (ext_int : string) (fuel : nat) (env : Env)
    (s1 s2 : PollStep) (a b : Event) :
  step_index s1 < step_index s2 ->
  step_call s1 a ->
  step_call s2 b ->
  before (trace_of (run_with net ext_int fuel env [])) a b.
Proof.
  intros Hlt Ha Hb.
  destruct (run_with_outcomes net ext_int fuel env)
    as [[_ [k1 [k2 [k3 [k4 [k5 [_ H]]]]]]]
       | [[s [tr0 [_ [_ Hp]]]] | [nm [t [H [_ [_ Hp]]]]]]].
  - rewrite H. cbn [trace_of]. unfold run_trace.
    apply before_app_tail.
    + eapply before_in_provision_trace; eassumption.
    + intros Hin. apply in_teardown_trace_not_command in Hin.
      rewrite (step_call_is_command s1 a Ha) in Hin. discriminate Hin.
    + intros Hin. apply in_teardown_trace_not_command in Hin.
      rewrite (step_call_is_command s2 b Hb) in Hin. discriminate Hin.
  - destruct Hp as [k1 [k2 [k3 [k4 [k5 [_ Hp]]]]]].
    eapply before_prefix; [exact Hp|].
    eapply before_in_provision_trace; eassumption.
  - rewrite H. cbn [trace_of].
    destruct Hp as [k1 [k2 [k3 [k4 [k5 [_ Hp]]]]]].
    eapply before_prefix; [exact Hp|].
    eapply before_in_provision_trace; eassumption.
Qed.

Lemma steps_in_order_witness :
  In (Cmd "dhcp" "/usr/sbin/dnsmasq")
     (trace_of (run_with (Mininet FaucetTopo) EXT_INT 2
                  (slow_node_env "dhcp" 13) [])) /\
  In (Cmd "h1" "ip addr show eth0 | grep -o 10.0.0.[0-9]")
     (trace_of (run_with (Mininet FaucetTopo) EXT_INT 2
                  (slow_node_env "dhcp" 13) [])) /\
  before
    (trace_of (run_with (Mininet FaucetTopo) EXT_INT 2
                 (slow_node_env "dhcp" 13) []))
    (Cmd "dhcp" "/usr/sbin/dnsmasq")
    (Cmd "h1" "ip addr show eth0 | grep -o 10.0.0.[0-9]").
Proof.
  split; [|split].
  - vm_compute. repeat (first [left; reflexivity | right]).
  - vm_compute. repeat (first [left; reflexivity | right]).
  - apply (steps_in_order (Mininet FaucetTopo) EXT_INT 2 (slow_node_env "dhcp" 13)
             DnsmasqListening LeaseH1).
    + simpl. lia.
    + right. simpl. auto.
    + left. reflexivity.
Defined.

(** ** Counting polls, retries and time slept *)

Lemma occurrences_app (e : Event) (a b : Trace) :
  occurrences e (a ++ b) = occurrences e a + occurrences e b.
Proof. apply count_occ_app. Qed.

Lemma occurrences_absent (e : Event) (tr : Trace) :
  ~ In e tr -> occurrences e tr = 0.
Proof. apply count_occ_not_In. Qed.

Lemma occurrences_rounds (e p : Event) (b : list Event) (k : nat) :
  occurrences e (rounds p b k) = k * occurrences e (p :: b).
Proof.
  induction k as [|k IH]; [reflexivity|].
  rewrite rounds_S, occurrences_app, IH. simpl. lia.
Qed.

Lemma occurrences_poll_in_step_trace (s : PollStep) (k : nat) :
  occurrences (poll_event s) (step_trace s k) = k + 1.
Proof.
  unfold step_trace.
  change (banner s :: step_rounds s k ++ [poll_event s; done_msg s])
    with ([banner s] ++ step_rounds s k ++ [poll_event s; done_msg s]).
  rewrite !occurrences_app. unfold step_rounds. rewrite occurrences_rounds.
  destruct s; vm_compute occurrences; lia.
Qed.

Lemma occurrences_retry_in_step_trace (s : PollStep) (k : nat) (act : Event) :
  retry s = [act] ->
  occurrences act (step_trace s k) = k.
Proof.
  intros Hr. unfold step_trace.
  change (banner s :: step_rounds s k ++ [poll_event s; done_msg s])
    with ([banner s] ++ step_rounds s k ++ [poll_event s; done_msg s]).
  rewrite !occurrences_app. unfold step_rounds. rewrite occurrences_rounds.
  destruct s; simpl in Hr; try discriminate Hr;
    injection Hr as Hr; subst act; vm_compute occurrences; lia.
Qed.

Lemma occurrences_in_other_step (s s' : PollStep) (k : nat) (a : Event) :
  step_call s a -> s <> s' -> occurrences a (step_trace s' k) = 0.
Proof.
  intros Hc Hne. apply occurrences_absent. intros Hin.
  apply Hne. eapply step_call_in_step_trace; eassumption.
Qed.

(** The occurrences of a command of step [s] in a completed run are those
    in the calls of step [s]. *)
Lemma occurrences_in_run_trace (net : Net) (ext_int : string)
    (k1 k2 k3 k4 k5 : nat) (s : PollStep) (a : Event) :
  step_call s a ->
  occurrences a (run_trace net ext_int k1 k2 k3 k4 k5)
  = occurrences a (step_trace s (at_step s k1 k2 k3 k4 k5)).
Proof.
  intros Hc. unfold run_trace, provision_trace.
  rewrite !occurrences_app.
  rewrite (occurrences_absent a prologue)
    by (eapply step_call_not_in_prologue; eassumption).
  rewrite (occurrences_absent a (nat_setup_trace ext_int))
    by (eapply step_call_not_in_nat_setup; eassumption).
  rewrite (occurrences_absent a (RunCLI :: _)).
  2:{ intros Hin. apply in_teardown_trace_not_command in Hin.
      rewrite (step_call_is_command s a Hc) in Hin. discriminate Hin. }
  destruct s; cbn [at_step];
    repeat match goal with
           | |- context [occurrences a (step_trace ?s' ?k)] =>
               rewrite (occurrences_in_other_step _ s' k a Hc) by discriminate
           end;
    lia.
Qed.

(** In a run that returns, every condition is polled at least once, and
    the retry command of a step is issued once for each failed poll, that
    is once less than the step polls: a condition that holds at the first
    poll is never retried. *)
Theorem retries_match_failed_polls
    (net : Net) (ext_int : string) (fuel : nat) (env : Env) (tr : Trace)
    (s : PollStep) :
  run_with net ext_int fuel env [] = Done tt tr ->
  1 <= occurrences (poll_event s) tr <= fuel + 1 /\
  (forall act, retry s = [act] ->
     occurrences act tr + 1 = occurrences (poll_event s) tr).
Proof.
  intros H.
  apply run_with_Done_inv in H as [_ [k1 [k2 [k3 [k4 [k5 [Hk H]]]]]]].
  subst tr.
  rewrite (occurrences_in_run_trace _ _ _ _ _ _ _ s (poll_event s))
    by (left; reflexivity).
  rewrite occurrences_poll_in_step_trace.
  split.
  - destruct s; cbn [at_step]; lia.
  - intros act Hr.
    rewrite (occurrences_in_run_trace _ _ _ _ _ _ _ s act)
      by (right; rewrite Hr; simpl; auto).
    rewrite (occurrences_retry_in_step_trace s _ act Hr). reflexivity.
Qed.

Lemma retries_match_failed_polls_witness :
  occurrences (QuietRun "service faucet start")
    (run_trace (Mininet FaucetTopo) EXT_INT 2 0 0 0 0) + 1
  = occurrences (poll_event FaucetRunning)
      (run_trace (Mininet FaucetTopo) EXT_INT 2 0 0 0 0).
Proof.
  destruct (retries_match_failed_polls (Mininet FaucetTopo) EXT_INT 2 (late_env 14)
              (run_trace (Mininet FaucetTopo) EXT_INT 2 0 0 0 0) FaucetRunning)
    as [_ H].
  - vm_compute. reflexivity.
  - apply H. reflexivity.
Defined.

Lemma slept_app (a b : Trace) : slept (a ++ b) = slept a + slept b.
Proof.
  induction a as [|e a IH]; [reflexivity|].
  destruct e; simpl; rewrite ?IH; lia.
Qed.

Lemma slept_rounds (p : Event) (b : list Event) (k : nat) :
  slept (rounds p b k) = k * slept (p :: b).
Proof.
  induction k as [|k IH]; [reflexivity|].
  rewrite rounds_S, slept_app, IH. simpl. lia.
Qed.

Lemma slept_step_trace (s : PollStep) (k : nat) :
  slept (step_trace s k) = k * interval s.
Proof.
  unfold step_trace.
  change (banner s :: step_rounds s k ++ [poll_event s; done_msg s])
    with ([banner s] ++ step_rounds s k ++ [poll_event s; done_msg s]).
  rewrite !slept_app. unfold step_rounds. rewrite slept_rounds.
  destruct s; simpl; lia.
Qed.

Lemma slept_no_sleep (tr : Trace) :
  (forall secs, ~ In (Sleep secs) tr) -> slept tr = 0.
Proof.
  induction tr as [|e tr IH]; intros H; [reflexivity|].
  assert (Htr : slept tr = 0)
    by (apply IH; intros secs Hin; apply (H secs); right; exact Hin).
  destruct e; simpl; auto.
  exfalso. apply (H secs). left. reflexivity.
Qed.

Lemma slept_teardown_trace (net : Net) (ext_int nat_nfv : string) :
  slept (RunCLI :: teardown_trace net ext_int nat_nfv) = 0.
Proof.
  apply slept_no_sleep. intros secs [H | H]; [discriminate H|].
  unfold teardown_trace in H. rewrite !in_app_iff in H.
  destruct H as [H | [H | [H | [H | H]]]].
  - destruct H as [H | [H | []]]; discriminate H.
  - apply in_link_stops in H as [H | [l [_ H]]]; discriminate H.
  - destruct H as [H | [H | []]]; discriminate H.
  - apply in_host_stops in H as [h [_ [H | [H | H]]]]; discriminate H.
  - destruct H as [H | [H | []]]; discriminate H.
Qed.

Lemma slept_run_trace (net : Net) (ext_int : string) (k1 k2 k3 k4 k5 : nat) :
  slept (run_trace net ext_int k1 k2 k3 k4 k5)
  = 1 + k1 + k2 + 2 * k3 + 3 * k4 + 3 * k5.
Proof.
  unfold run_trace, provision_trace.
  rewrite !slept_app, !slept_step_trace, slept_teardown_trace.
  simpl. lia.
Qed.

(** In a run that returns, the time spent sleeping is the one second
    after the external interface is attached, plus one second for each
    failed poll of the controller service and of the switch connection,
    two for each failed poll of the DHCP server and three for each failed
    poll of a host's lease. *)
Theorem time_slept
    (net : Net) (ext_int : string) (fuel : nat) (env : Env) (tr : Trace) :
  run_with net ext_int fuel env [] = Done tt tr ->
  slept tr
  = 1 + 1 * (occurrences (poll_event FaucetRunning) tr - 1)
      + 1 * (occurrences (poll_event SwitchConnected) tr - 1)
      + 2 * (occurrences (poll_event DnsmasqListening) tr - 1)
      + 3 * (occurrences (poll_event LeaseH1) tr - 1)
      + 3 * (occurrences (poll_event LeaseH2) tr - 1) /\
  slept tr <= 1 + 10 * fuel.
Proof.
  intros H.
  apply run_with_Done_inv in H as [_ [k1 [k2 [k3 [k4 [k5 [Hk H]]]]]]].
  subst tr. rewrite slept_run_trace.
  rewrite !(occurrences_in_run_trace _ _ _ _ _ _ _ _ (poll_event _))
    by (left; reflexivity).
  rewrite !occurrences_poll_in_step_trace. cbn [at_step]. lia.
Qed.

Lemma time_slept_witness :
  slept (run_trace (Mininet FaucetTopo) EXT_INT 2 0 0 0 0) <= 1 + 10 * 2.
Proof.
  destruct (time_slept (Mininet FaucetTopo) EXT_INT 2 (late_env 14)
              (run_trace (Mininet FaucetTopo) EXT_INT 2 0 0 0 0)) as [_ H].
  - vm_compute. reflexivity.
  - exact H.
Defined.

(** ** Kinds of calls *)

(** Finds the disjunct that describes a given call. *)
Ltac pick_kind :=
  let close := solve [ reflexivity
                     | eexists; reflexivity
                     | do 2 eexists; split; [reflexivity | simpl; tauto] ] in
  solve [ repeat first [ left; close | right ]; close ].

(** Before the shell the script only starts the network, logs, sleeps,
    runs commands on the six nodes it looks up, and attaches the external
    interface to the NAT node. *)
Lemma in_step_trace_kind (s : PollStep) (k : nat) (e : Event) :
  In e (step_trace s k) ->
  (exists m, e = Info m) \/ (exists n, e = Sleep n) \/
  (exists c, e = QuietRun c) \/
  (exists nm c, e = Cmd nm c /\ In nm looked_up).
Proof.
  intros Hin.
  assert (Ha : e = poll_event s \/ In e (body_events s) \/
               e = banner s \/ e = done_msg s).
  { unfold step_trace in Hin. destruct Hin as [H | H]; [auto|].
    apply in_app_iff in H as [H | H].
    - apply in_rounds in H as [H | H]; auto.
    - destruct H as [H | [H | []]]; auto. }
  destruct Ha as [H | [H | [H | H]]]; destruct s; simpl in H;
    repeat match type of H with
           | _ \/ _ => destruct H as [H | H]
           | False => contradiction
           end;
    subst e; pick_kind.
Qed.

Lemma in_provision_trace_kind (ext_int : string) (k1 k2 k3 k4 k5 : nat) (e : Event) :
  In e (provision_trace ext_int k1 k2 k3 k4 k5) ->
  e = NetStart \/ e = AttachIntf ext_int "nat" \/
  (exists m, e = Info m) \/ (exists n, e = Sleep n) \/
  (exists c, e = QuietRun c) \/
  (exists nm c, e = Cmd nm c /\ In nm looked_up).
Proof.
  unfold provision_trace. rewrite !in_app_iff.
  intros [H | [H | [H | [H | [H | [H | H]]]]]];
    try (apply in_step_trace_kind in H; tauto).
  - unfold prologue in H. cbn [In] in H.
    repeat match type of H with
           | _ \/ _ => destruct H as [H | H]
           | False => contradiction
           end; subst e; pick_kind.
  - unfold nat_setup_trace in H. cbn [In] in H.
    repeat match type of H with
           | _ \/ _ => destruct H as [H | H]
           | False => contradiction
           end; subst e; pick_kind.
Qed.

Lemma in_teardown_trace_kind (net : Net) (ext_int : string) (e : Event) :
  In e (RunCLI :: teardown_trace net ext_int "nat") ->
  e = DelIntf "nat" ext_int \/ (exists m, e = Info m) \/
  (is_late_call e = true /\ is_intf_call e = false).
Proof.
  intros [H | H]; [subst e; auto|].
  unfold teardown_trace in H. rewrite !in_app_iff in H.
  destruct H as [H | [H | [H | [H | H]]]].
  - destruct H as [H | [H | []]]; subst e; eauto.
  - apply in_link_stops in H as [H | [l [_ H]]]; subst e; eauto.
  - destruct H as [H | [H | []]]; subst e; eauto.
  - apply in_host_stops in H as [h [_ [H | [H | H]]]]; subst e; eauto.
  - destruct H as [H | [H | []]]; subst e; eauto.
Qed.

(** ** Commands and the nodes they run on *)

(** In every execution, commands are run only on the six nodes the script
    looks up: the controller node [faucet] and the intrusion-detection
    node [ids], declared with the placeholder address, are never
    configured. *)
Theorem commands_only_on_looked_up_nodes
    (net : Net) (ext_int : string) (fuel : nat) (env : Env) (nm c : string) :
  In (Cmd nm c) (trace_of (run_with net ext_int fuel env [])) ->
  In nm looked_up /\ nm <> "faucet" /\ nm <> "ids".
Proof.
  intros Hin.
  assert (Hl : In nm looked_up).
  { destruct (run_with_outcomes net ext_int fuel env)
      as [[_ [k1 [k2 [k3 [k4 [k5 [_ H]]]]]]]
         | [[s [tr0 [_ [_ Hp]]]] | [nm' [t [H [_ [_ Hp]]]]]]].
    - rewrite H in Hin. cbn [trace_of] in Hin. unfold run_trace in Hin.
      apply in_app_iff in Hin as [Hin | Hin].
      + apply in_provision_trace_kind in Hin
          as [H' | [H' | [[m H'] | [[n H'] | [[q H'] | [nm2 [c' [H' Hl]]]]]]]];
          try discriminate H'.
        injection H' as -> _. exact Hl.
      + apply in_teardown_trace_kind in Hin as [H' | [[m H'] | [H' _]]];
          discriminate H'.
    - destruct Hp as [k1 [k2 [k3 [k4 [k5 [_ [suffix Hp]]]]]]].
      assert (Hin' : In (Cmd nm c) (provision_trace ext_int k1 k2 k3 k4 k5))
        by (rewrite Hp; apply in_or_app; left; exact Hin).
      apply in_provision_trace_kind in Hin'
        as [H' | [H' | [[m H'] | [[n H'] | [[q H'] | [nm2 [c' [H' Hl]]]]]]]];
        try discriminate H'.
      injection H' as -> _. exact Hl.
    - rewrite H in Hin. cbn [trace_of] in Hin.
      destruct Hp as [k1 [k2 [k3 [k4 [k5 [_ [suffix Hp]]]]]]].
      assert (Hin' : In (Cmd nm c) (provision_trace ext_int k1 k2 k3 k4 k5))
        by (rewrite Hp; apply in_or_app; left; exact Hin).
      apply in_provision_trace_kind in Hin'
        as [H' | [H' | [[m H'] | [[n H'] | [[q H'] | [nm2 [c' [H' Hl]]]]]]]];
        try discriminate H'.
      injection H' as -> _. exact Hl. }
  split; [exact Hl|].
  split; intros ->; simpl in Hl;
    repeat (destruct Hl as [Hl | Hl]; [discriminate Hl|]); contradiction.
Qed.

Lemma commands_only_on_looked_up_nodes_witness :
  In "nat" looked_up /\ "nat" <> "faucet" /\ "nat" <> "ids".
Proof.
  apply (commands_only_on_looked_up_nodes (Mininet FaucetTopo) EXT_INT 0 ready_env
           "nat" "/sbin/sysctl -q -w net.ipv4.ip_forward=1").
  vm_compute. repeat (first [left; reflexivity | right]).
Defined.

(** ** The external interface, from attachment to detachment *)

(** In a run that returns, for every value of the constant: the external
    interface is attached to the NAT node once and detached from it once,
    no other interface is attached or detached, and in between the
    masquerade rule is installed for that same interface, before the
    interactive shell opens. *)
Theorem external_interface_lifecycle
    (net : Net) (ext_int : string) (fuel : nat) (env : Env) (tr : Trace) :
  run_with net ext_int fuel env [] = Done tt tr ->
  exists pre mid1 mid2 mid3 post,
    tr = pre ++ AttachIntf ext_int "nat" :: mid1
             ++ masquerade_rule ext_int :: mid2
             ++ RunCLI :: mid3
             ++ DelIntf "nat" ext_int :: post /\
    (forall e, In e (pre ++ mid1 ++ mid2 ++ mid3 ++ post) -> is_intf_call e = false).
Proof.
  intros H. apply run_with_Done_shape in H as [k1 [k2 [k3 [k4 [k5 H]]]]].
  subst tr.
  exists (prologue ++ step_trace FaucetRunning k1 ++ step_trace SwitchConnected k2
          ++ step_trace DnsmasqListening k3 ++ step_trace LeaseH1 k4
          ++ step_trace LeaseH2 k5
          ++ [Info "*** Moving bridged interface into the NAT NFV.."]).
  exists (firstn 6 (skipn 2 (nat_setup_trace ext_int))).
  exists (skipn 9 (nat_setup_trace ext_int)).
  exists [].
  exists ([Info ("*** Stopping " ++ str_of_nat (length (net_links net)) ++ " links:")]
          ++ flat_map (fun l => [Info "."; LinkStop l]) (net_links net)
          ++ [Info nl;
              Info ("*** Stopping " ++ str_of_nat (length (net_hosts net)) ++ " hosts: ")]
          ++ flat_map (fun h => [Info (h ++ " "); HostStop h true; HostTerminate h])
               (net_hosts net)
          ++ [Info ("...done" ++ nl); NetStop]).
  split.
  - unfold run_trace, provision_trace, nat_setup_trace, teardown_trace,
      masquerade_rule.
    cbn [firstn skipn].
    repeat (cbn [app]; rewrite <- ?app_assoc).
    reflexivity.
  - intros e Hin.
    rewrite !in_app_iff in Hin.
    destruct Hin as [[Hin | [Hin | [Hin | [Hin | [Hin | [Hin | Hin]]]]]]
                    | [Hin | [Hin | [Hin | [Hin | [Hin | [Hin | [Hin | Hin]]]]]]]].

    + unfold prologue in Hin.
      repeat (destruct Hin as [Hin | Hin]; [subst e; reflexivity|]); contradiction.
    + apply in_step_trace_kind in Hin
        as [[m H'] | [[n H'] | [[q H'] | [nm [c [H' _]]]]]]; subst e; reflexivity.
    + apply in_step_trace_kind in Hin
        as [[m H'] | [[n H'] | [[q H'] | [nm [c [H' _]]]]]]; subst e; reflexivity.
    + apply in_step_trace_kind in Hin
        as [[m H'] | [[n H'] | [[q H'] | [nm [c [H' _]]]]]]; subst e; reflexivity.
    + apply in_step_trace_kind in Hin
        as [[m H'] | [[n H'] | [[q H'] | [nm [c [H' _]]]]]]; subst e; reflexivity.
    + apply in_step_trace_kind in Hin
        as [[m H'] | [[n H'] | [[q H'] | [nm [c [H' _]]]]]]; subst e; reflexivity.
    + destruct Hin as [Hin | []]. subst e. reflexivity.
    + cbn [firstn skipn nat_setup_trace] in Hin.
      repeat (destruct Hin as [Hin | Hin]; [subst e; reflexivity|]); contradiction.
    + cbn [firstn skipn nat_setup_trace] in Hin.
      repeat (destruct Hin as [Hin | Hin]; [subst e; reflexivity|]); contradiction.
    + contradiction.
    + destruct Hin as [H' | []]; subst e; reflexivity.
    + apply in_link_stops in Hin as [H' | [l [_ H']]]; subst e; reflexivity.
    + destruct Hin as [H' | [H' | []]]; subst e; reflexivity.
    + apply in_host_stops in Hin as [h [_ [H' | [H' | H']]]]; subst e; reflexivity.
    + destruct Hin as [H' | [H' | []]]; subst e; reflexivity.
Qed.

Lemma external_interface_lifecycle_witness :
  exists pre mid1 mid2 mid3 post,
    run_trace (Mininet FaucetTopo) "eth1" 0 0 0 0 0
    = pre ++ AttachIntf "eth1" "nat" :: mid1
          ++ masquerade_rule "eth1" :: mid2
          ++ RunCLI :: mid3
          ++ DelIntf "nat" "eth1" :: post /\
    (forall e, In e (pre ++ mid1 ++ mid2 ++ mid3 ++ post) -> is_intf_call e = false).
Proof.
  apply (external_interface_lifecycle (Mininet FaucetTopo) "eth1" 0 ready_env).
  vm_compute. reflexivity.
Defined.

(** ** What the teardown stops *)

Lemma stopped_links_app (a b : Trace) :
  stopped_links (a ++ b) = stopped_links a ++ stopped_links b.
Proof. apply flat_map_app. Qed.

Lemma host_calls_app (a b : Trace) :
  host_calls (a ++ b) = host_calls a ++ host_calls b.
Proof. apply flat_map_app. Qed.

Lemma no_stops_before_teardown (t : Trace) :
  (forall e, In e t -> is_teardown_call e = false) ->
  stopped_links t = [] /\ host_calls t = [].
Proof.
  induction t as [|e t IH]; intros H; [split; reflexivity|].
  destruct IH as [IH1 IH2]; [intros e' He'; apply H; right; exact He'|].
  pose proof (H e (or_introl eq_refl)) as He.
  unfold stopped_links, host_calls in *. simpl. rewrite IH1, IH2.
  destruct e; try discriminate He; split; reflexivity.
Qed.

Lemma stopped_links_of_link_loop (ls : list Topo.Link) :
  stopped_links (flat_map (fun l => [Info "."; LinkStop l]) ls) = ls /\
  host_calls (flat_map (fun l => [Info "."; LinkStop l]) ls) = [].
Proof.
  induction ls as [|l ls [IH1 IH2]]; [split; reflexivity|].
  unfold stopped_links, host_calls in *. simpl. rewrite IH1, IH2.
  split; reflexivity.
Qed.

Lemma host_calls_of_host_loop (hs : list string) :
  stopped_links
    (flat_map (fun h => [Info (h ++ " "); HostStop h true; HostTerminate h]) hs) = [] /\
  host_calls
    (flat_map (fun h => [Info (h ++ " "); HostStop h true; HostTerminate h]) hs)
  = flat_map (fun h => [inl (h, true); inr h]) hs.
Proof.
  induction hs as [|h hs [IH1 IH2]]; [split; reflexivity|].
  unfold stopped_links, host_calls in *. simpl. rewrite IH1, IH2.
  split; reflexivity.
Qed.

(** In a run that returns, the links stopped are exactly the links of the
    network, each once and in the network's order, and their number is the
    one logged; the hosts are taken in the network's order, each stopped
    with its interfaces deleted and terminated right after, and nothing
    else is stopped or terminated. *)
Theorem teardown_stops_the_network
    (net : Net) (ext_int : string) (fuel : nat) (env : Env) (tr : Trace) :
  run_with net ext_int fuel env [] = Done tt tr ->
  stopped_links tr = net_links net /\
  host_calls tr = flat_map (fun h => [inl (h, true); inr h]) (net_hosts net) /\
  In (Info ("*** Stopping " ++ str_of_nat (length (stopped_links tr)) ++ " links:")) tr.
Proof.
  intros H. apply run_with_Done_shape in H as [k1 [k2 [k3 [k4 [k5 H]]]]].
  subst tr.
  assert (HL : stopped_links (run_trace net ext_int k1 k2 k3 k4 k5) = net_links net).
  { unfold run_trace, teardown_trace.
    destruct (no_stops_before_teardown (provision_trace ext_int k1 k2 k3 k4 k5))
      as [E _]; [apply in_provision_trace_not_teardown|].
    change (RunCLI :: ?x) with ([RunCLI] ++ x).
    rewrite !stopped_links_app, E.
    destruct (stopped_links_of_link_loop (net_links net)) as [E1 _].
    destruct (host_calls_of_host_loop (net_hosts net)) as [E2 _].
    rewrite E1, E2. simpl. rewrite app_nil_r. reflexivity. }
  split; [exact HL|]. split.
  - unfold run_trace, teardown_trace.
    destruct (no_stops_before_teardown (provision_trace ext_int k1 k2 k3 k4 k5))
      as [_ E]; [apply in_provision_trace_not_teardown|].
    change (RunCLI :: ?x) with ([RunCLI] ++ x).
    rewrite !host_calls_app, E.
    destruct (stopped_links_of_link_loop (net_links net)) as [_ E1].
    destruct (host_calls_of_host_loop (net_hosts net)) as [_ E2].
    rewrite E1, E2. simpl. rewrite app_nil_r. reflexivity.
  - rewrite HL. unfold run_trace, teardown_trace.
    apply in_or_app. right. cbn [app In]. auto.
Qed.

Lemma teardown_stops_the_network_witness :
  stopped_links (run_trace (Mininet FaucetTopo) EXT_INT 0 0 0 0 0)
  = Topo.links FaucetTopo /\
  host_calls (run_trace (Mininet FaucetTopo) EXT_INT 0 0 0 0 0)
  = flat_map (fun h => [inl (h, true); inr h])
      ["faucet"; "dhcp"; "nat"; "ids"; "h1"; "h2"].
Proof.
  destruct (teardown_stops_the_network (Mininet FaucetTopo) EXT_INT 0 ready_env
              (run_trace (Mininet FaucetTopo) EXT_INT 0 0 0 0 0)) as [H1 [H2 _]].
  - vm_compute. reflexivity.
  - split; [exact H1 | exact H2].
Defined.

(** * The topology as a graph *)

Lemma connected_trans (g : Topo.t) (a b c : string) :
  connected g a b -> connected g b c -> connected g a c.
Proof.
  intros Hab Hbc. induction Hab as [a | a b' c' Hl Hbc' IH]; [exact Hbc|].
  eapply conn_step; [exact Hl | apply IH; exact Hbc].
Qed.

(** The declared topology is connected: a path of links leads from every
    declared node to every other, through one switch or both. *)
Theorem topology_connected (a b : string) :
  In a (map Topo.name (Topo.nodes FaucetTopo)) ->
  In b (map Topo.name (Topo.nodes FaucetTopo)) ->
  connected FaucetTopo a b.
Proof.
  intros Ha Hb.
  apply (connected_trans _ a "sw1" b).
  - simpl in Ha.
    repeat (destruct Ha as [Ha | Ha]; [subst a|]); try contradiction;
      first
        [ apply conn_refl
        | apply (conn_step _ _ "sw1"); [reflexivity | apply conn_refl]
        | apply (conn_step _ _ "sw2"); [reflexivity|];
          apply (conn_step _ _ "sw1"); [reflexivity | apply conn_refl] ].
  - simpl in Hb.
    repeat (destruct Hb as [Hb | Hb]; [subst b|]); try contradiction;
      match goal with
      | |- connected _ _ ?x =>
          first
            [ apply conn_refl
            | apply (conn_step _ _ x); [reflexivity | apply conn_refl]
            | apply (conn_step _ _ "sw2"); [reflexivity|];
              apply (conn_step _ _ x); [reflexivity | apply conn_refl] ]
      end.
Qed.

Lemma topology_connected_witness : connected FaucetTopo "h1" "ids".
Proof.
  apply (topology_connected "h1" "ids"); simpl; tauto.
Defined.

(** * The exit test *)

Lemma prefix_spec (n h : string) :
  String.prefix n h = true <-> exists post, h = (n ++ post)%string.
Proof.
  revert h. induction n as [|c n IH]; intros h; simpl.
  - split; [intros _; exists h; reflexivity | destruct h; reflexivity].
  - destruct h as [|c' h].
    + split; [discriminate | intros [post H]; discriminate H].
    + simpl. destruct (Ascii.ascii_dec c c') as [Heq | Hne].
      * subst c'. rewrite IH. split; intros [post H]; exists post.
        -- rewrite H. reflexivity.
        -- injection H as H. exact H.
      * split; [discriminate|].
        intros [post H]. injection H as Hc _. congruence.
Qed.

(** [needle in hay] holds exactly when [hay] is some text, then [needle],
    then some text. *)
Lemma contains_spec (n h : string) :
  contains n h = true <-> exists pre post, h = (pre ++ n ++ post)%string.
Proof.
  induction h as [|c h IH]; cbn [contains].
  - rewrite orb_false_r, prefix_spec. split.
    + intros [post H]. exists EmptyString, post. exact H.
    + intros [pre [post H]]. destruct pre; [exists post; exact H | discriminate H].
  - rewrite orb_true_iff, prefix_spec, IH. split.
    + intros [[post H] | [pre [post H]]].
      * exists EmptyString, post. exact H.
      * exists (String c pre), post. simpl. rewrite H. reflexivity.
    + intros [pre [post H]]. destruct pre as [|c' pre].
      * left. exists post. exact H.
      * right. exists pre, post. simpl in H. injection H as _ H. exact H.
Qed.

(** A polling loop returns at its first poll, having done nothing else,
    exactly when the text polled has the step's marker as a contiguous
    substring. *)
Theorem loop_passes_at_once_iff_marker_occurs
    (s : PollStep) (fuel : nat) (env : Env) (tr0 : Trace) :
  poll_loop s fuel env tr0 = Done tt (tr0 ++ [poll_event s]) <->
  exists pre post,
    env (tr0 ++ [poll_event s]) = (pre ++ marker s ++ post)%string.
Proof.
  rewrite <- contains_spec. split.
  - intros E.
    destruct (poll_loop_cases s fuel env tr0)
      as [[k [Hk [Hlt [Hat Hr]]]] | [Hall Hr]]; rewrite Hr in E;
      [|discriminate E].
    apply Done_inj in E. apply app_inv_head in E.
    destruct k as [|k].
    + exact Hat.
    + pose proof (step_rounds_length_S s k) as Hl.
      rewrite E in Hl. simpl in Hl. lia.
  - apply poll_loop_exit.
Qed.

(** * The script against its topology *)




